(** * evhz (SDL2 front end): event timing and frequency estimation

    A shallow embedding of [src/evhz_sdl2.cpp]: the per-device-class
    rolling window filled by [processEvent] and the periodic report of
    [logEventData], with the properties the specification states about
    them.

    Modelling choices, all taken from the source:
    - [uint32_t] timestamps are [Z] in the range [0, 2^32); the unsigned
      subtraction of line 82 is written out with its wrap-around.
    - [double] is IEEE 754 binary64, given by the Standard Library's
      executable specification [spec_float] with [prec = 53] and
      [emax = 1024] (round to nearest, ties to even).
    - [std::vector] is [list]; [back()] and [erase(begin())] on an empty
      vector are undefined behaviour in C++ and are [None] here, so that
      "the call returns" is a statement to prove, not an assumption.
    - [std::map<TimedEventType, EventData>] is a [gmap]; [operator[]]
      inserts a default-constructed value for an absent key, and
      iteration visits the keys in increasing order of the enumeration.
    - [std::cout] is the list of the items inserted into the stream. The
      decimal rendering of a [double] by [operator<<] is not modelled: an
      inserted double is kept as its value.
    - The loop of [main] is run over the events SDL hands out in each
      iteration and the arrivals of SIGINT; the set-up of SDL before the
      loop and the drawing calls in it, which touch none of the data
      above, are left out. *)

From Stdlib Require Import ZArith Bool Lia.
From Stdlib Require Import Floats.SpecFloat.
From Stdlib Require Import QArith.
From stdpp Require Import base option list gmap strings.

Local Open Scope Z_scope.

(** ** Machine numbers *)

Module U32.
(** [uint32_t] *)
Definition modulus : Z := 2 ^ 32.
Definition in_range (x : Z) : Prop := 0 <= x < modulus.
(** [a - b] on [uint32_t] operands *)
Definition sub (a b : Z) : Z := (a - b) mod modulus.
End U32.

Module Double.
(** [double]: IEEE 754 binary64 *)
Definition prec : Z := 53.
Definition emax : Z := 1024.
Definition double : Type := spec_float.

(** Conversion of an integer value to [double] ([static_cast<double>],
  integer literals promoted to double, [size_t] operands of [/=]). *)
Definition of_Z (z : Z) : double := binary_normalize prec emax z 0 false.

Definition zero : double := S754_zero false.
Definition add : double -> double -> double := SFadd prec emax.
Definition div : double -> double -> double := SFdiv prec emax.
Definition ltb : double -> double -> bool := SFltb.
Definition leb : double -> double -> bool := SFleb.
Definition eqb : double -> double -> bool := SFeqb.

(** [std::max(a, b)] is [(a < b) ? b : a]. *)
Definition max (a b : double) : double := if ltb a b then b else a.

Definition is_nan (x : double) : bool :=
  match x with S754_nan => true | _ => false end.

(** Not a NaN, and the sign bit is clear: [+0], a positive finite number
  or [+infinity]. *)
Definition nonneg (x : double) : bool :=
  match x with
  | S754_zero false | S754_infinity false | S754_finite false _ _ => true
  | _ => false
  end.

(** The rational number a finite [double] stands for. *)
Definition value (x : double) : option Q :=
  match x with
  | S754_zero _ => Some 0%Q
  | S754_finite s m e => Some (inject_Z (cond_Zopp s (Zpos m)) * Qpower 2 e)%Q
  | _ => None
  end.

Definition has_value (x : double) (q : Q) : Prop :=
  match value x with
  | Some r => Qeq r q
  | None => False
  end.
End Double.

Abbreviation double := Double.double.

(** ** [std::vector] operations used by the source *)

Module Vec.
Section Ops.
Context {A : Type}.
Definition empty (v : list A) : bool :=
  match v with [] => true | _ => false end.
Definition push_back (v : list A) (x : A) : list A := v ++ [x].
(** [back()]: undefined on an empty vector *)
Definition back (v : list A) : option A := last v.
(** [erase(begin())]: undefined on an empty vector *)
Definition erase_begin (v : list A) : option (list A) :=
  match v with [] => None | _ :: v' => Some v' end.
Definition size (v : list A) : Z := Z.of_nat (length v).
End Ops.
End Vec.

(** ** Data model *)

Definition event_data_freq_array_size : Z := 64.

Inductive TimedEventType := Keyboard | Mouse.

Definition TimedEventTypeToString (t : TimedEventType) : string :=
  match t with
  | Keyboard => "Keyboard"
  | Mouse => "Mouse"
  end.

#[global] Instance TimedEventType_eq_dec : EqDecision TimedEventType.
Proof. solve_decision. Defined.

(** The underlying values of the enumerators. *)
Definition TimedEventType_to_nat (t : TimedEventType) : nat :=
  match t with Keyboard => 0%nat | Mouse => 1%nat end.

Definition TimedEventType_of_nat (n : nat) : TimedEventType :=
  match n with O => Keyboard | _ => Mouse end.

#[global] Instance TimedEventType_countable : Countable TimedEventType.
Proof.
  refine (inj_countable' TimedEventType_to_nat TimedEventType_of_nat _).
  by intros [].
Defined.

(** The keys in the order [std::map] iterates them ([operator<] on the
    enumeration: [Keyboard = 0 < Mouse = 1]). *)
Definition TimedEventType_ordered : list TimedEventType := [Keyboard; Mouse].

Record EventData := mkEventData {
  timestamps : list Z;
  freq_array : list double;
  average_freq : double
}.

(** Default member initialisers of [EventData]. *)
Definition EventData_default : EventData :=
  {| timestamps := []; freq_array := []; average_freq := Double.zero |}.

Abbreviation Registry := (gmap TimedEventType EventData).

(** [events[t]]: a reference to the mapped value, a default-constructed
    one being inserted first when the key is absent. *)
Definition map_index (t : TimedEventType) (events : Registry)
  : EventData * Registry :=
  match events !! t with
  | Some v => (v, events)
  | None => (EventData_default, <[t := EventData_default]> events)
  end.

(** ** [processEvent] *)

(** Lines 87-91: [while (freq_array.size() > 64)] erase the first element
    of both vectors. Each iteration shortens [freq_array] by one, so the
    loop is structural on it. *)
Fixpoint evict (fs : list double) (ts : list Z)
  : option (list double * list Z) :=
  match fs with
  | [] => Some (fs, ts)
  | _ :: fs' =>
      if event_data_freq_array_size <? Vec.size fs then
        ts' ← Vec.erase_begin ts;
        evict fs' ts'
      else Some (fs, ts)
  end.

(** Line 70: [!v.timestamps.empty() && e.common.timestamp == v.timestamps.back()];
    [&&] does not evaluate [back()] on an empty vector. *)
Definition is_duplicate (v : EventData) (timestamp : Z) : bool :=
  negb (Vec.empty (timestamps v)) &&
  match Vec.back (timestamps v) with
  | Some lst => timestamp =? lst
  | None => false
  end.

(** Lines 76-84: the frequency sample pushed for a non-duplicate event. *)
Definition new_sample (v : EventData) (timestamp : Z) : option double :=
  if Vec.empty (freq_array v) then Some Double.zero
  else
    lst ← Vec.back (timestamps v);
    Some (Double.div (Double.of_Z 1000) (Double.of_Z (U32.sub timestamp lst))).

(** [processEvent(t, e, events)], with [timestamp] for [e.common.timestamp].
    The result is the registry after the call; [None] stands for
    undefined behaviour of a vector operation. *)
Definition processEvent (t : TimedEventType) (timestamp : Z) (events : Registry)
  : option Registry :=
  let '(v, events) := map_index t events in
  if is_duplicate v timestamp then Some events
  else
    f ← new_sample v timestamp;
    let fs := Vec.push_back (freq_array v) f in
    let ts := Vec.push_back (timestamps v) timestamp in
    '(fs', ts') ← evict fs ts;
    Some (<[t := {| timestamps := ts'; freq_array := fs';
                    average_freq := average_freq v |}]> events).

(** A sequence of [processEvent] calls, as the driver loop issues them. *)
Fixpoint processEvents (calls : list (TimedEventType * Z)) (events : Registry)
  : option Registry :=
  match calls with
  | [] => Some events
  | (t, timestamp) :: calls' =>
      events' ← processEvent t timestamp events;
      processEvents calls' events'
  end.

(** ** [logEventData] *)

Inductive out_item :=
| OutStr (s : string)
| OutDouble (d : double)
| OutEndl.

(** Lines 103-107: the accumulation loop over [freq_array]; the pair is
    [(avgF, maxF)]. *)
Definition accumulate (fs : list double) : double * double :=
  fold_left (fun '(avgF, maxF) f => (Double.add avgF f, Double.max maxF f))
            fs (Double.zero, Double.zero).

(** Lines 98-110: the body of the loop over the map, for the entry
    [(t, e)]; it returns the entry (held by reference) and the items
    inserted into [std::cout]. *)
Definition log_entry (t : TimedEventType) (e : EventData)
  : EventData * list out_item :=
  if negb (Vec.empty (freq_array e)) then
    let '(avgF, maxF) := accumulate (freq_array e) in
    let avgF := Double.div avgF (Double.of_Z (Vec.size (freq_array e))) in
    (e, [OutStr "Type: "; OutStr (TimedEventTypeToString t);
         OutStr " Max: "; OutDouble maxF;
         OutStr "Hz Avg: "; OutDouble avgF; OutStr "Hz"; OutEndl])
  else (e, []).

(** [logEventData(events)]: the registry after the call and the items
    written, the entries being visited in key order. *)
Definition logEventData (events : Registry) : Registry * list out_item :=
  fold_left
    (fun '(events, out) t =>
       match events !! t with
       | Some e =>
           let '(e', items) := log_entry t e in
           (<[t := e']> events, out ++ items)
       | None => (events, out)
       end)
    TimedEventType_ordered (events, []).

Definition report (events : Registry) : list out_item := (logEventData events).2.

(** Number of lines written: one per [std::endl]. *)
Fixpoint line_count (out : list out_item) : nat :=
  match out with
  | [] => O
  | OutEndl :: out' => S (line_count out')
  | _ :: out' => line_count out'
  end.

(** ** The driver loop of [main] *)

(** The event types the [switch] of [main] names; every other type takes
    the [default] branch. The numeric values are SDL's and play no role. *)
Inductive SDL_EventType :=
| SDL_WINDOWEVENT
| SDL_KEYDOWN
| SDL_KEYUP
| SDL_MOUSEMOTION
| SDL_MOUSEBUTTONDOWN
| SDL_MOUSEBUTTONUP
| SDL_MOUSEWHEEL
| SDL_OTHEREVENT.

(** [e.window.event]: the one value the source tests for, and the rest. *)
Inductive SDL_WindowEventID :=
| SDL_WINDOWEVENT_CLOSE
| SDL_WINDOWEVENT_OTHER.

(** The fields of [SDL_Event] the source reads. *)
Record SDL_Event := mkEvent {
  ev_type : SDL_EventType;
  window_event : SDL_WindowEventID;
  common_timestamp : Z
}.

(** The state the loop works on: the local [events] and [loopy], the
    global [sentinel], and what was written to [std::cout]. *)
Record MainState := mkMain {
  st_events : Registry;
  st_loopy : Z;
  st_sentinel : bool;
  st_cout : list out_item
}.

(** [processWindowEvent(e)], on the value of [sentinel]. *)
Definition processWindowEvent (e : SDL_Event) (sentinel : bool) : bool :=
  match window_event e with
  | SDL_WINDOWEVENT_CLOSE => true
  | SDL_WINDOWEVENT_OTHER => sentinel
  end.

(** [on_signal_int(signum)], on the value of [sentinel]. *)
Definition on_signal_int (sentinel : bool) : bool := true.

(** Lines 152-183: the [switch] on [e.type]. *)
Definition handle_event (e : SDL_Event) (st : MainState) : option MainState :=
  match ev_type e with
  | SDL_WINDOWEVENT =>
      Some {| st_events := st_events st; st_loopy := st_loopy st;
              st_sentinel := processWindowEvent e (st_sentinel st);
              st_cout := st_cout st |}
  | SDL_KEYDOWN | SDL_KEYUP =>
      events' ← processEvent Keyboard (common_timestamp e) (st_events st);
      Some {| st_events := events'; st_loopy := st_loopy st;
              st_sentinel := st_sentinel st; st_cout := st_cout st |}
  | SDL_MOUSEMOTION | SDL_MOUSEBUTTONDOWN | SDL_MOUSEBUTTONUP | SDL_MOUSEWHEEL =>
      events' ← processEvent Mouse (common_timestamp e) (st_events st);
      Some {| st_events := events'; st_loopy := st_loopy st;
              st_sentinel := st_sentinel st; st_cout := st_cout st |}
  | SDL_OTHEREVENT => Some st
  end.

(** Lines 150-184: [while (SDL_PollEvent(&e))], over the events the queue
    hands out during one iteration of the outer loop, in order. *)
Fixpoint poll_events (polled : list SDL_Event) (st : MainState)
  : option MainState :=
  match polled with
  | [] => Some st
  | e :: polled' => st' ← handle_event e st; poll_events polled' st'
  end.

(** Lines 192-197: [++loopy] on [unsigned], then the report every 200th
    iteration. *)
Definition tick (st : MainState) : MainState :=
  let loopy := (st_loopy st + 1) mod U32.modulus in
  if loopy mod 200 =? 0 then
    let '(events', out) := logEventData (st_events st) in
    {| st_events := events'; st_loopy := 0;
       st_sentinel := st_sentinel st; st_cout := st_cout st ++ out |}
  else
    {| st_events := st_events st; st_loopy := loopy;
       st_sentinel := st_sentinel st; st_cout := st_cout st |}.

(** What one iteration of the outer loop receives: the events polled, and
    whether SIGINT was delivered while it ran. *)
Record Iteration := mkIteration {
  polled : list SDL_Event;
  interrupted : bool
}.

(** Lines 149-197: the body of [while (!sentinel)]. The calls that draw
    the window touch none of the state above and are left out. The
    handler of SIGINT only sets [sentinel], which is read nowhere but in
    the loop condition, so its effect is applied at the end. *)
Definition iteration (i : Iteration) (st : MainState) : option MainState :=
  st' ← poll_events (polled i) st;
  let st'' := tick st' in
  Some {| st_events := st_events st''; st_loopy := st_loopy st'';
          st_sentinel := if interrupted i then on_signal_int (st_sentinel st'')
                         else st_sentinel st'';
          st_cout := st_cout st'' |}.

(** Lines 148-198: [while (!sentinel)], run over the iterations given;
    the result is the state when the loop is left, or when the
    iterations given are used up. *)
Fixpoint main_loop (inputs : list Iteration) (st : MainState)
  : option MainState :=
  if st_sentinel st then Some st
  else
    match inputs with
    | [] => Some st
    | i :: inputs' => st' ← iteration i st; main_loop inputs' st'
    end.

(** The state on entry of the loop: [events] empty (line 120), [loopy]
    zero (line 146), [sentinel] as the handler may have left it, and the
    banner of line 117 written. *)
Definition main_entry (sentinel : bool) : MainState :=
  {| st_events := ∅; st_loopy := 0; st_sentinel := sentinel;
     st_cout := [OutStr "Checking events from SDL2, Close window or CTRL-C in terminal to exit.";
                 OutEndl] |}.

(** ** Vocabulary of the statements *)

(** The last [n] elements of [l], in their order in [l]. *)
Definition lastn {A : Type} (n : nat) (l : list A) : list A :=
  drop (length l - n) l.

(** The timestamps passed for class [c] by a sequence of calls, in call
    order. *)
Definition class_timestamps (c : TimedEventType) (calls : list (TimedEventType * Z))
  : list Z :=
  (filter (fun call => call.1 = c) calls).*2.

(** What [processEvent] does to the entry of its own class. *)
Definition record_state (v : EventData) (timestamp : Z) : option EventData :=
  if is_duplicate v timestamp then Some v
  else
    f ← new_sample v timestamp;
    '(fs', ts') ← evict (Vec.push_back (freq_array v) f)
                        (Vec.push_back (timestamps v) timestamp);
    Some {| timestamps := ts'; freq_array := fs';
            average_freq := average_freq v |}.

Fixpoint record_states (l : list Z) (v : EventData) : option EventData :=
  match l with
  | [] => Some v
  | timestamp :: l' => v' ← record_state v timestamp; record_states l' v'
  end.

(** The frequency, in Hz, of events [delta] milliseconds apart
    (line 82). *)
Definition frequency (delta : Z) : double :=
  Double.div (Double.of_Z 1000) (Double.of_Z delta).

(** The sample pushed by a non-duplicate call, from the last timestamp of
    the window. *)
Definition sample_after (prev : option Z) (e : Z) : double :=
  match prev with
  | None => Double.zero
  | Some lst => frequency (U32.sub e lst)
  end.

(** The frequency samples of a sequence of timestamps: the sentinel for
    the first, then one sample per consecutive pair, the interval being
    computed by [sub]. *)
Fixpoint samples_from (sub : Z -> Z -> Z) (prev : Z) (l : list Z) : list double :=
  match l with
  | [] => []
  | t :: l' => frequency (sub t prev) :: samples_from sub t l'
  end.

Definition samples_with (sub : Z -> Z -> Z) (l : list Z) : list double :=
  match l with
  | [] => []
  | t :: l' => Double.zero :: samples_from sub t l'
  end.

(** With the mathematical difference of consecutive timestamps. *)
Definition samples : list Z -> list double := samples_with Z.sub.

Fixpoint strictly_increasing (l : list Z) : Prop :=
  match l with
  | a :: (b :: _) as l' => a < b /\ strictly_increasing l'
  | _ => True
  end.

Fixpoint no_adjacent_duplicate (l : list Z) : Prop :=
  match l with
  | a :: (b :: _) as l' => a <> b /\ no_adjacent_duplicate l'
  | _ => True
  end.

(** The invariant of a window: parallel vectors within the bound, every
    frequency sample a non-negative number. *)
Record window_ok (v : EventData) : Prop := {
  ok_parallel : length (timestamps v) = length (freq_array v);
  ok_bounded : (length (freq_array v) <= 64)%nat;
  ok_nonneg : Forall (fun f => Double.nonneg f = true) (freq_array v)
}.

(** The invariant of an entry of the registry: a non-empty window. *)
Record state_ok (v : EventData) : Prop := {
  ok_nonempty : timestamps v <> [];
  ok_window : window_ok v
}.

Definition registry_ok (events : Registry) : Prop :=
  forall c v, events !! c = Some v -> state_ok v.

(** The registries the program can hold: those built from the empty one
    of [main] by calls of [processEvent]. *)
Definition reachable (events : Registry) : Prop :=
  exists calls, processEvents calls ∅ = Some events.

(** Sum of a window, accumulated from [0.0] in window order. *)
Definition sum (fs : list double) : double := fold_left Double.add fs Double.zero.

Definition mean (fs : list double) : double :=
  Double.div (sum fs) (Double.of_Z (Z.of_nat (length fs))).

(** [M] is the greatest element of [fs]. *)
Definition is_maximum (M : double) (fs : list double) : Prop :=
  M ∈ fs /\ forall x, x ∈ fs -> Double.leb x M = true.

(** The line of the report for class [t] with the given statistics. *)
Definition line (t : TimedEventType) (maxF avgF : double) : list out_item :=
  [OutStr "Type: "; OutStr (TimedEventTypeToString t);
   OutStr " Max: "; OutDouble maxF;
   OutStr "Hz Avg: "; OutDouble avgF; OutStr "Hz"; OutEndl].

(** What the report writes for class [c]. *)
Definition report_line (events : Registry) (c : TimedEventType) : list out_item :=
  match events !! c with
  | Some e => (log_entry c e).2
  | None => []
  end.

(** Whether the window of class [c] holds a sample. *)
Definition has_samples (events : Registry) (c : TimedEventType) : bool :=
  match events !! c with
  | Some v => negb (Vec.empty (freq_array v))
  | None => false
  end.

(** 1 when class [c] has an entry in the registry, 0 otherwise. *)
Definition present (events : Registry) (c : TimedEventType) : nat :=
  match events !! c with Some _ => 1%nat | None => 0%nat end.

(** A registry whose only entry, for [Keyboard], has an empty window. *)
Definition idle_keyboard : Registry := {[Keyboard := EventData_default]}.

#[global] Instance in_range_dec x : Decision (U32.in_range x).
Proof. unfold U32.in_range. apply _. Defined.

(** [n] calls for class [c], one every [step] milliseconds from 0. *)
Definition periodic_calls (c : TimedEventType) (step : Z) (n : nat)
  : list (TimedEventType * Z) :=
  (fun i => (c, step * Z.of_nat i)) <$> seq 0 n.

(** The call of [processEvent] the [switch] of [main] makes for an
    event, if any. *)
Definition classify (e : SDL_Event) : option (TimedEventType * Z) :=
  match ev_type e with
  | SDL_KEYDOWN | SDL_KEYUP => Some (Keyboard, common_timestamp e)
  | SDL_MOUSEMOTION | SDL_MOUSEBUTTONDOWN | SDL_MOUSEBUTTONUP | SDL_MOUSEWHEEL =>
      Some (Mouse, common_timestamp e)
  | SDL_WINDOWEVENT | SDL_OTHEREVENT => None
  end.

(** The calls of [processEvent] made while the given iterations run, in
    order. *)
Definition recorded (its : list Iteration) : list (TimedEventType * Z) :=
  its ≫= (fun i => omap classify (polled i)).

(** A window event asking to close the window. *)
Definition closes (e : SDL_Event) : bool :=
  match ev_type e, window_event e with
  | SDL_WINDOWEVENT, SDL_WINDOWEVENT_CLOSE => true
  | _, _ => false
  end.

(** An iteration during which [sentinel] is raised. *)
Definition stops (i : Iteration) : bool :=
  interrupted i || existsb closes (polled i).

(** The iterations the loop runs, of those given: up to and including the
    first one that raises [sentinel]; none when [sentinel] is raised on
    entry. *)
Fixpoint iterations_run (sentinel : bool) (inputs : list Iteration)
  : list Iteration :=
  if sentinel then []
  else
    match inputs with
    | [] => []
    | i :: inputs' => i :: iterations_run (stops i) inputs'
    end.

(** The given iterations run one after the other, [sentinel] not being
    looked at. *)
Fixpoint iterations (its : list Iteration) (st : MainState) : option MainState :=
  match its with
  | [] => Some st
  | i :: its' => st' ← iteration i st; iterations its' st'
  end.

(** The state after an iteration that leaves the registry [events']. *)
Definition after_iteration (i : Iteration) (st : MainState) (events' : Registry)
  : MainState :=
  let loopy := (st_loopy st + 1) mod U32.modulus in
  {| st_events := events';
     st_loopy := if loopy mod 200 =? 0 then 0 else loopy;
     st_sentinel := st_sentinel st || stops i;
     st_cout := if loopy mod 200 =? 0 then st_cout st ++ report events'
                else st_cout st |}.

(** What [logEventData] writes for the registry as it is after the first
    [200 * k] of the given iterations. *)
Definition report_at (its : list Iteration) (k : nat) : list out_item :=
  match processEvents (recorded (take (200 * k) its)) ∅ with
  | Some events => report events
  | None => []
  end.

(** A registry written by hand: a Keyboard window as two calls 1 ms
    apart leave it, and a Mouse window holding the sample [-1.0]. *)
Definition negative_mouse : Registry :=
  <[Keyboard := {| timestamps := [0; 1];
                   freq_array := [Double.zero; Double.of_Z 1000];
                   average_freq := Double.zero |}]>
    {[Mouse := {| timestamps := [5];
                  freq_array := [Double.of_Z (-1)];
                  average_freq := Double.zero |}]}.

(** An iteration that polls nothing, and one that polls two mouse
    motions 10 ms apart. *)
Definition idle_iteration : Iteration := mkIteration [] false.

Definition busy_iteration : Iteration :=
  mkIteration [mkEvent SDL_MOUSEMOTION SDL_WINDOWEVENT_OTHER 0;
               mkEvent SDL_MOUSEMOTION SDL_WINDOWEVENT_OTHER 10] false.

(** ** Binary64 arithmetic: signs *)

Section Rounding_sign.
Let P (mrs : shr_record) : Prop := 0 <= shr_m mrs.

Lemma shr_1_nonneg mrs : P mrs -> P (shr_1 mrs).
Proof.
  unfold P. destruct mrs as [m r s0]. cbn.
  destruct m as [|[p|p|]|[p|p|]]; cbn; lia.
Qed.

Lemma iter_pos_invariant {A} (Q : A -> Prop) (f : A -> A) :
  (forall x, Q x -> Q (f x)) -> forall p x, Q x -> Q (SpecFloat.iter_pos f p x).
Proof.
  intros Hf. induction p as [p IH|p IH|]; intros x Hx; cbn; auto.
Qed.

Lemma shr_fexp_nonneg m e l :
  0 <= m -> P (shr_fexp Double.prec Double.emax m e l).1.
Proof.
  intros Hm. unfold shr_fexp, shr.
  assert (P (shr_record_of_loc m l)) as H0.
  { unfold P. by destruct l as [|[]]. }
  destruct (_ - e) as [|p|p]; cbn [fst]; [done| |done].
  by apply iter_pos_invariant; [apply shr_1_nonneg|].
Qed.

Lemma round_nearest_even_nonneg m l : 0 <= m -> 0 <= round_nearest_even m l.
Proof.
  intros Hm. unfold round_nearest_even.
  destruct l as [|[]]; [done| |done|lia]. destruct (Z.even m); lia.
Qed.

Lemma binary_round_aux_nonneg m e l :
  0 <= m ->
  Double.nonneg (binary_round_aux Double.prec Double.emax false m e l) = true.
Proof.
  intros Hm. unfold binary_round_aux.
  pose proof (shr_fexp_nonneg m e l Hm) as H1.
  destruct (shr_fexp _ _ m e l) as [mrs' e'] eqn:E1. cbn [fst] in H1.
  pose proof (shr_fexp_nonneg _ e' loc_Exact
                (round_nearest_even_nonneg _ (loc_of_shr_record mrs') H1)) as H2.
  destruct (shr_fexp _ _ _ e' loc_Exact) as [mrs'' e''] eqn:E2. cbn [fst] in H2.
  unfold P in H2. destruct (shr_m mrs'') as [|q|q]; [done| |lia].
  by destruct (_ <=? _).
Qed.
End Rounding_sign.

Lemma of_Z_nonneg z : 0 <= z -> Double.nonneg (Double.of_Z z) = true.
Proof.
  intros Hz. unfold Double.of_Z, binary_normalize.
  destruct z as [|m|m]; [done| |lia].
  unfold binary_round. destruct (shl_align _ _ _) as [mz ez].
  by apply binary_round_aux_nonneg.
Qed.

Lemma div_nonneg mx ex y :
  Double.nonneg y = true ->
  Double.nonneg (Double.div (S754_finite false mx ex) y) = true.
Proof.
  destruct y as [[]|[]| |[] my ey]; try done. intros _.
  unfold Double.div, SFdiv, SFdiv_core_binary.
  set (s := _ - _ - _).
  set (m' := match s with Z0 => _ | Zpos _ => _ | Zneg _ => _ end).
  assert (0 <= m') as Hm'.
  { subst m'. destruct s; [lia| |lia]. apply Z.shiftl_nonneg. lia. }
  pose proof (Z.div_pos m' (Zpos my) Hm' eq_refl) as Hq.
  unfold Z.div in Hq. destruct (Z.div_eucl m' (Zpos my)) as [q r].
  cbn [xorb]. by apply binary_round_aux_nonneg.
Qed.

Lemma frequency_nonneg d : 0 <= d -> Double.nonneg (frequency d) = true.
Proof.
  intros Hd. unfold frequency.
  assert (exists m e, Double.of_Z 1000 = S754_finite false m e) as (m & e & ->).
  { by vm_compute; eauto. }
  by apply div_nonneg, of_Z_nonneg.
Qed.

(** ** Binary64 arithmetic: the order *)

Lemma compare_cont_spec (m1 m2 : positive) :
  CompareSpec (m1 = m2) (m1 < m2)%positive (m2 < m1)%positive
              (PosDef.Pos.compare_cont Eq m1 m2).
Proof. exact (Pos.compare_spec m1 m2). Qed.

Lemma compare_cont_refl (m : positive) : PosDef.Pos.compare_cont Eq m m = Eq.
Proof. exact (Pos.compare_refl m). Qed.

Ltac compare_cases :=
  repeat first
    [ rewrite Z.compare_refl
    | rewrite compare_cont_refl
    | match goal with
      | |- context [(?x ?= ?y)%Z] => destruct (Z.compare_spec x y); try subst x
      | |- context [PosDef.Pos.compare_cont Eq ?x ?y] =>
          destruct (compare_cont_spec x y); try subst x
      end ];
  cbn [CompOpp fmap option_fmap option_map]; try done; try lia.

Lemma compare_antisym (a b : double) :
  SFcompare b a = CompOpp <$> SFcompare a b.
Proof.
  destruct a as [[]|[]| |[] ma ea], b as [[]|[]| |[] mb eb]; try done;
    cbn; compare_cases.
Qed.

Lemma leb_total (a b : double) :
  Double.is_nan a = false -> Double.is_nan b = false ->
  Double.ltb a b = false -> Double.leb b a = true.
Proof.
  unfold Double.ltb, Double.leb, SFltb, SFleb.
  rewrite (compare_antisym a b). intros Ha Hb.
  destruct (SFcompare a b) as [[]|] eqn:E; try done.
  by destruct a as [| | |], b as [| | |].
Qed.

Lemma leb_refl (a : double) : Double.is_nan a = false -> Double.leb a a = true.
Proof.
  unfold Double.leb, SFleb.
  destruct a as [[]|[]| |[] m e]; try done; intros _; cbn;
    rewrite Z.compare_refl, compare_cont_refl; done.
Qed.

Lemma ltb_leb (a b : double) : Double.ltb a b = true -> Double.leb a b = true.
Proof.
  unfold Double.ltb, Double.leb, SFltb, SFleb.
  by destruct (SFcompare a b) as [[]|].
Qed.

Lemma leb_not_nan (a b : double) :
  Double.leb a b = true -> Double.is_nan a = false /\ Double.is_nan b = false.
Proof. by destruct a as [| | |], b as [| | |]. Qed.

Lemma leb_trans (a b c : double) :
  Double.leb a b = true -> Double.leb b c = true -> Double.leb a c = true.
Proof.
  unfold Double.leb, SFleb.
  destruct a as [[]|[]| |[] ma ea], b as [[]|[]| |[] mb eb],
           c as [[]|[]| |[] mc ec]; try done;
    cbn; compare_cases.
Qed.

(** ** Lists: the last [n] elements *)

Section Lastn.
Context {A : Type}.
Implicit Types (l : list A) (n : nat).

Lemma lastn_length l n : length (lastn n l) = Nat.min n (length l).
Proof. unfold lastn. rewrite length_drop. lia. Qed.

Lemma lastn_all l n : (length l <= n)%nat -> lastn n l = l.
Proof.
  intros H. unfold lastn. replace (length l - n)%nat with O by lia. done.
Qed.

Lemma lastn_cons x l n : (n <= length l)%nat -> lastn n (x :: l) = lastn n l.
Proof.
  intros H. unfold lastn. cbn [length].
  replace (S (length l) - n)%nat with (S (length l - n)) by lia. done.
Qed.

Lemma lastn_snoc l n x : lastn (S n) (l ++ [x]) = lastn n l ++ [x].
Proof.
  unfold lastn. rewrite length_app. cbn [length].
  replace (length l + 1 - S n)%nat with (length l - n)%nat by lia.
  rewrite drop_app_le by lia. done.
Qed.

Lemma lastn_lastn_snoc l n x :
  lastn (S n) (lastn (S n) l ++ [x]) = lastn (S n) (l ++ [x]).
Proof.
  rewrite !lastn_snoc. f_equal. unfold lastn.
  rewrite drop_drop, length_drop. f_equal. lia.
Qed.

Lemma lastn_last l n : last (lastn (S n) l) = last l.
Proof.
  destruct l as [|y l _] using rev_ind; [done|].
  by rewrite lastn_snoc, !last_snoc.
Qed.

Lemma lastn_nil_inv l n : lastn (S n) l = [] -> l = [].
Proof.
  intros H. apply (f_equal length) in H. rewrite lastn_length in H.
  destruct l; [done | cbn in H; lia].
Qed.
End Lastn.

(** ** The eviction loop *)

Lemma evict_parallel (fs : list double) (ts : list Z) :
  length ts = length fs -> evict fs ts = Some (lastn 64 fs, lastn 64 ts).
Proof.
  revert ts. induction fs as [|f fs IH]; intros ts Hlen.
  - destruct ts; [done | discriminate].
  - destruct ts as [|t ts]; [discriminate|]. injection Hlen as Hlen.
    cbn [evict]. unfold event_data_freq_array_size, Vec.size.
    destruct (Z.ltb_spec 64 (Z.of_nat (length (f :: fs)))) as [Hgt|Hle];
      cbn [length] in *.
    + change (evict fs ts = Some (lastn 64 (f :: fs), lastn 64 (t :: ts))).
      rewrite IH by done. rewrite !lastn_cons by lia. done.
    + rewrite !lastn_all by (cbn [length]; lia). done.
Qed.

(** ** One call, seen from the entry of its class *)

Lemma is_duplicate_spec v e :
  is_duplicate v e = true <-> last (timestamps v) = Some e.
Proof.
  unfold is_duplicate, Vec.back, Vec.empty.
  generalize (timestamps v) as ts. intros [|t ts].
  - cbn. split; discriminate.
  - cbn [negb andb]. destruct (last (t :: ts)) as [lst|].
    + rewrite Z.eqb_eq. split; congruence.
    + split; discriminate.
Qed.

Lemma is_duplicate_false v e :
  is_duplicate v e = false <-> last (timestamps v) <> Some e.
Proof.
  rewrite <- is_duplicate_spec. destruct (is_duplicate v e); split; congruence.
Qed.

Lemma new_sample_parallel v e :
  length (timestamps v) = length (freq_array v) ->
  new_sample v e = Some (sample_after (last (timestamps v)) e).
Proof.
  intros Hlen. unfold new_sample, Vec.back, Vec.empty.
  destruct (freq_array v) as [|f fs].
  - destruct (timestamps v); [done | discriminate].
  - destruct (timestamps v) as [|t ts] using rev_ind; [discriminate|].
    by rewrite last_snoc.
Qed.

Lemma record_state_parallel v e :
  length (timestamps v) = length (freq_array v) ->
  record_state v e =
    Some (if is_duplicate v e then v
          else {| timestamps := lastn 64 (timestamps v ++ [e]);
                  freq_array :=
                    lastn 64 (freq_array v ++ [sample_after (last (timestamps v)) e]);
                  average_freq := average_freq v |}).
Proof.
  intros Hlen. unfold record_state.
  destruct (is_duplicate v e); [done|].
  rewrite new_sample_parallel by done. cbn [mbind option_bind].
  unfold Vec.push_back. rewrite evict_parallel; [done|].
  rewrite !length_app. cbn. lia.
Qed.

Lemma processEvent_record_state t e (events : Registry) :
  processEvent t e events =
    v' ← record_state (default EventData_default (events !! t)) e;
    Some (<[t := v']> events).
Proof.
  unfold processEvent, map_index, record_state.
  destruct (events !! t) as [v|] eqn:E; cbn [default from_option id].
  - destruct (is_duplicate v e).
    + cbn. by rewrite insert_id.
    + destruct (new_sample v e) as [f|]; [|done]. cbn.
      by destruct (evict _ _) as [[fs' ts']|].
  - cbn. destruct (_ <? _); cbn; by rewrite insert_insert_eq.
Qed.

Lemma sample_after_nonneg prev e : Double.nonneg (sample_after prev e) = true.
Proof.
  destruct prev as [lst|]; [|done]. apply frequency_nonneg.
  unfold U32.sub, U32.modulus. apply Z.mod_pos_bound. lia.
Qed.

Lemma record_state_ok v e :
  window_ok v -> exists v', record_state v e = Some v' /\ state_ok v'.
Proof.
  intros [Hlen Hle Hnn]. rewrite record_state_parallel by done.
  destruct (is_duplicate v e) eqn:Hdup; (eexists; split; [done|]).
  - apply is_duplicate_spec in Hdup.
    split; [|done]. intros Hnil. by rewrite Hnil in Hdup.
  - split; [|split]; cbn [timestamps freq_array].
    + intros Hnil. apply lastn_nil_inv in Hnil. by destruct (timestamps v).
    + rewrite !lastn_length, !length_app. cbn [length]. lia.
    + rewrite lastn_length. lia.
    + apply Forall_drop, Forall_app. split; [done|].
      apply Forall_singleton, sample_after_nonneg.
Qed.

(** ** The registry: frame, invariant, totality *)

Lemma processEvent_frame t e (events events' : Registry) c :
  processEvent t e events = Some events' -> c <> t ->
  events' !! c = events !! c.
Proof.
  rewrite processEvent_record_state. intros H Hne.
  destruct (record_state _ e) as [v'|]; [|done]. cbn in H.
  injection H as <-. by rewrite lookup_insert_ne.
Qed.

Lemma processEvent_own t e (events events' : Registry) :
  processEvent t e events = Some events' ->
  exists v', record_state (default EventData_default (events !! t)) e = Some v' /\
             events' !! t = Some v'.
Proof.
  rewrite processEvent_record_state. intros H.
  destruct (record_state _ e) as [v'|]; [|done]. cbn in H.
  injection H as <-. exists v'. by rewrite lookup_insert_eq.
Qed.

Lemma lookup_default_window (events : Registry) c :
  registry_ok events -> window_ok (default EventData_default (events !! c)).
Proof.
  intros Hok. destruct (events !! c) as [v|] eqn:E; cbn.
  - by destruct (Hok c v E).
  - split; cbn; [done | lia | constructor].
Qed.

Lemma processEvent_ok t e (events : Registry) :
  registry_ok events ->
  exists events', processEvent t e events = Some events' /\ registry_ok events'.
Proof.
  intros Hok. rewrite processEvent_record_state.
  destruct (record_state_ok _ e (lookup_default_window events t Hok))
    as (v' & -> & Hv').
  eexists. split; [done|]. intros c v.
  destruct (decide (t = c)) as [->|Hne].
  - rewrite lookup_insert_eq. by intros [= <-].
  - rewrite lookup_insert_ne by done. apply Hok.
Qed.

Lemma registry_ok_empty : registry_ok ∅.
Proof. intros c v. by rewrite lookup_empty. Qed.

Lemma processEvents_ok calls (events : Registry) :
  registry_ok events ->
  exists events', processEvents calls events = Some events' /\ registry_ok events'.
Proof.
  revert events. induction calls as [|[t e] calls IH]; intros events Hok.
  - by exists events.
  - destruct (processEvent_ok t e events Hok) as (ev1 & H1 & Hok1).
    destruct (IH ev1 Hok1) as (ev2 & H2 & Hok2).
    exists ev2. cbn. rewrite H1. done.
Qed.

Lemma class_timestamps_cons c t e calls :
  class_timestamps c ((t, e) :: calls) =
    if decide (t = c) then e :: class_timestamps c calls
    else class_timestamps c calls.
Proof.
  unfold class_timestamps. rewrite filter_cons. cbn [fst].
  by destruct (decide (t = c)).
Qed.

(** The entry of class [c] after a sequence of calls is determined by the
    calls for [c] alone. *)
Lemma processEvents_class c calls (events events' : Registry) :
  processEvents calls events = Some events' ->
  record_states (class_timestamps c calls) (default EventData_default (events !! c))
  = Some (default EventData_default (events' !! c)).
Proof.
  revert events. induction calls as [|[t e] calls IH]; intros events H.
  - by injection H as <-.
  - cbn in H. destruct (processEvent t e events) as [ev1|] eqn:H1; [|done].
    cbn in H. rewrite class_timestamps_cons.
    destruct (decide (t = c)) as [->|Hne].
    + destruct (processEvent_own _ _ _ _ H1) as (v' & Hv' & Hl).
      cbn. rewrite Hv'. cbn. rewrite <- (IH ev1 H). by rewrite Hl.
    + rewrite <- (IH ev1 H). by rewrite (processEvent_frame _ _ _ _ c H1).
Qed.

(** ** A class fed timestamps without adjacent duplicates *)

Lemma samples_from_length sub prev l : length (samples_from sub prev l) = length l.
Proof. revert prev. induction l as [|t l IH]; intros prev; cbn; [done | by rewrite IH]. Qed.

Lemma samples_with_length sub l : length (samples_with sub l) = length l.
Proof. destruct l; cbn; [done | by rewrite samples_from_length]. Qed.

Lemma samples_from_snoc sub prev l e :
  samples_from sub prev (l ++ [e]) =
    samples_from sub prev l ++ [frequency (sub e (default prev (last l)))].
Proof.
  revert prev. induction l as [|t l IH]; intros prev; [done|].
  cbn [app samples_from]. rewrite IH. f_equal. rewrite last_cons.
  by destruct (last l).
Qed.

Lemma samples_with_snoc l e :
  samples_with U32.sub (l ++ [e]) =
    samples_with U32.sub l ++ [sample_after (last l) e].
Proof.
  destruct l as [|t l]; [done|].
  cbn [app samples_with]. rewrite samples_from_snoc. cbn [app]. do 3 f_equal.
  rewrite last_cons. by destruct (last l).
Qed.

Lemma no_adjacent_duplicate_snoc l e :
  no_adjacent_duplicate (l ++ [e]) ->
  no_adjacent_duplicate l /\ last l <> Some e.
Proof.
  induction l as [|a [|b l] IH]; cbn.
  - done.
  - intros [Hne _]. split; [done | congruence].
  - intros [Hne H]. destruct (IH H) as [H1 H2]. done.
Qed.

Lemma strictly_increasing_no_duplicate l :
  strictly_increasing l -> no_adjacent_duplicate l.
Proof.
  induction l as [|a [|b l] IH]; cbn; [done..|].
  intros [Hlt H]. split; [lia | by apply IH].
Qed.

Lemma samples_from_increasing prev l :
  Forall U32.in_range (prev :: l) -> strictly_increasing (prev :: l) ->
  samples_from U32.sub prev l = samples_from Z.sub prev l.
Proof.
  revert prev. induction l as [|t l IH]; intros prev Hr Hs; [done|].
  cbn [samples_from]. destruct Hs as [Hlt Hs].
  inversion Hr as [|? ? Hp Hr']; subst. rewrite (IH t Hr' Hs). f_equal.
  inversion Hr' as [|? ? Ht _]; subst.
  unfold U32.sub, U32.in_range in *. rewrite Z.mod_small by lia. done.
Qed.

Lemma samples_increasing l :
  Forall U32.in_range l -> strictly_increasing l ->
  samples_with U32.sub l = samples l.
Proof.
  destruct l as [|t l]; [done|]. intros Hr Hs. unfold samples. cbn.
  by rewrite samples_from_increasing.
Qed.

Lemma record_states_snoc l e v :
  record_states (l ++ [e]) v = v' ← record_states l v; record_state v' e.
Proof.
  revert v. induction l as [|t l IH]; intros v; cbn.
  - by destruct (record_state v e).
  - destruct (record_state v t) as [v1|]; cbn; [apply IH | done].
Qed.

Lemma record_states_fresh l :
  no_adjacent_duplicate l ->
  record_states l EventData_default =
    Some {| timestamps := lastn 64 l;
            freq_array := lastn 64 (samples_with U32.sub l);
            average_freq := Double.zero |}.
Proof.
  induction l as [|e l IH] using rev_ind; intros Hnd; [done|].
  apply no_adjacent_duplicate_snoc in Hnd as [Hnd Hlast].
  rewrite record_states_snoc, (IH Hnd). cbn [mbind option_bind].
  rewrite record_state_parallel; cbn [timestamps freq_array average_freq].
  - replace (is_duplicate _ e) with false.
    + rewrite !lastn_last, samples_with_snoc, !lastn_lastn_snoc. done.
    + symmetry. apply is_duplicate_false. cbn [timestamps].
      by rewrite lastn_last.
  - by rewrite !lastn_length, samples_with_length.
Qed.

(** ** The report *)

Lemma accumulate_eq fs :
  accumulate fs = (sum fs, fold_left Double.max fs Double.zero).
Proof.
  unfold accumulate, sum. generalize Double.zero at 1 3. generalize Double.zero.
  induction fs as [|f fs IH]; intros a m; [done|]. cbn. apply IH.
Qed.

Lemma log_entry_eq t e :
  log_entry t e =
    (e, if Vec.empty (freq_array e) then []
        else line t (fold_left Double.max (freq_array e) Double.zero)
                    (mean (freq_array e))).
Proof.
  unfold log_entry. rewrite accumulate_eq.
  by destruct (Vec.empty (freq_array e)).
Qed.

Lemma logEventData_eq (events : Registry) :
  logEventData events =
    (events, report_line events Keyboard ++ report_line events Mouse).
Proof.
  unfold logEventData, report_line, TimedEventType_ordered. cbn [fold_left].
  destruct (events !! Keyboard) as [k|] eqn:Ek.
  - rewrite (log_entry_eq Keyboard k). rewrite (insert_id _ _ _ Ek).
    destruct (events !! Mouse) as [m|] eqn:Em.
    + rewrite (log_entry_eq Mouse m). by rewrite (insert_id _ _ _ Em).
    + by rewrite app_nil_r.
  - destruct (events !! Mouse) as [m|] eqn:Em; [|done].
    rewrite (log_entry_eq Mouse m). by rewrite (insert_id _ _ _ Em).
Qed.

Lemma nonneg_not_nan f : Double.nonneg f = true -> Double.is_nan f = false.
Proof. by destruct f. Qed.

Lemma max_not_nan a b :
  Double.is_nan a = false -> Double.is_nan b = false ->
  Double.is_nan (Double.max a b) = false.
Proof. unfold Double.max. by destruct (Double.ltb a b). Qed.

Lemma fold_max_spec fs acc :
  Double.is_nan acc = false ->
  Forall (fun f => Double.is_nan f = false) fs ->
  let M := fold_left Double.max fs acc in
  Double.leb acc M = true /\
  (forall x, x ∈ fs -> Double.leb x M = true) /\
  (M = acc \/ M ∈ fs).
Proof.
  revert acc. induction fs as [|f fs IH]; intros acc Hacc Hfs; cbn.
  - split; [by apply leb_refl|]. split; [|by left].
    intros x Hx. by apply elem_of_nil in Hx.
  - apply Forall_cons in Hfs as [Hf Hfs].
    destruct (IH (Double.max acc f) (max_not_nan _ _ Hacc Hf) Hfs)
      as (Hge & Hub & Hmem).
    assert (Double.leb acc (Double.max acc f) = true /\
            Double.leb f (Double.max acc f) = true) as [Ha Hb].
    { unfold Double.max. destruct (Double.ltb acc f) eqn:Hlt.
      - split; [by apply ltb_leb | by apply leb_refl].
      - split; [by apply leb_refl | by apply leb_total]. }
    split; [by eapply leb_trans|]. split.
    + intros x [->|Hx]%elem_of_cons; [by eapply leb_trans | by apply Hub].
    + destruct Hmem as [->|Hmem]; [|by right; right].
      unfold Double.max. destruct (Double.ltb acc f); [right; left | left]; done.
Qed.

Lemma max_zero_nonneg f :
  Double.nonneg f = true -> Double.max Double.zero f = f.
Proof. by destruct f as [[]|[]| |[] m e]. Qed.

Lemma fold_max_is_maximum fs :
  fs <> [] -> Forall (fun f => Double.nonneg f = true) fs ->
  is_maximum (fold_left Double.max fs Double.zero) fs.
Proof.
  destruct fs as [|f fs]; [done|]. intros _ [Hf Hfs]%Forall_cons.
  cbn [fold_left]. rewrite max_zero_nonneg by done.
  destruct (fold_max_spec fs f) as (Hge & Hub & Hmem).
  { by apply nonneg_not_nan. }
  { eapply Forall_impl; [exact Hfs|]. apply nonneg_not_nan. }
  split.
  - destruct Hmem as [->|Hmem]; [left | by right].
  - intros x [->|Hx]%elem_of_cons; [done | by apply Hub].
Qed.

Lemma reachable_ok (events : Registry) : reachable events -> registry_ok events.
Proof.
  intros [calls H].
  destruct (processEvents_ok calls ∅ registry_ok_empty) as (ev & H' & Hok).
  rewrite H in H'. by injection H' as <-.
Qed.

Lemma record_state_last v e v' :
  window_ok v -> record_state v e = Some v' -> last (timestamps v') = Some e.
Proof.
  intros [Hlen _ _]. rewrite record_state_parallel by done. intros [= <-].
  destruct (is_duplicate v e) eqn:Hdup.
  - by apply is_duplicate_spec.
  - cbn [timestamps]. by rewrite lastn_last, last_snoc.
Qed.

Lemma processEvent_duplicate t e (events : Registry) v :
  events !! t = Some v -> last (timestamps v) = Some e ->
  processEvent t e events = Some events.
Proof.
  intros Hv Hlast. unfold processEvent, map_index. rewrite Hv.
  apply is_duplicate_spec in Hlast. by rewrite Hlast.
Qed.

Lemma processEvents_frame c calls (events events' : Registry) :
  Forall (fun call => call.1 <> c) calls ->
  processEvents calls events = Some events' ->
  events' !! c = events !! c.
Proof.
  revert events. induction calls as [|[t e] calls IH]; intros events Hall H.
  - by injection H as <-.
  - apply Forall_cons in Hall as [Hne Hall]. cbn in H, Hne.
    destruct (processEvent t e events) as [ev1|] eqn:H1; [|done].
    rewrite (IH ev1 Hall H). eapply processEvent_frame; [done | congruence].
Qed.

Lemma processEvents_filter c calls (events events' ev2 : Registry) :
  processEvents calls events = Some events' ->
  ev2 !! c = events !! c ->
  exists ev2',
    processEvents (filter (fun call => call.1 = c) calls) ev2 = Some ev2' /\
    ev2' !! c = events' !! c.
Proof.
  revert events ev2. induction calls as [|[t e] calls IH]; intros events ev2 H Heq.
  - injection H as <-. by exists ev2.
  - cbn in H. destruct (processEvent t e events) as [ev1|] eqn:H1; [|done].
    cbn in H. rewrite filter_cons. cbn [fst].
    destruct (decide (t = c)) as [->|Hne].
    + destruct (processEvent_own _ _ _ _ H1) as (v' & Hv' & Hl).
      cbn [processEvents]. rewrite processEvent_record_state, Heq, Hv'. cbn.
      apply (IH ev1); [done|]. by rewrite lookup_insert_eq.
    + apply (IH ev1); [done|].
      rewrite Heq. symmetry. eapply processEvent_frame; [done | congruence].
Qed.

Lemma record_states_ok l v :
  window_ok v -> l <> [] ->
  exists v', record_states l v = Some v' /\ state_ok v'.
Proof.
  revert v. induction l as [|e l IH]; intros v Hw Hne; [done|].
  destruct (record_state_ok v e Hw) as (v1 & H1 & Hok1).
  cbn. rewrite H1. cbn. destruct l as [|e' l].
  - by exists v1.
  - apply IH; [by destruct Hok1 | done].
Qed.

Lemma state_ok_freq_nonempty v : state_ok v -> freq_array v <> [].
Proof.
  intros [Hne [Hlen _ _]] Hnil. rewrite Hnil in Hlen.
  by destruct (timestamps v).
Qed.

Lemma report_line_empty (events : Registry) c :
  report_line events c = [] <->
  events !! c = None \/ exists v, events !! c = Some v /\ freq_array v = [].
Proof.
  unfold report_line. destruct (events !! c) as [v|]; [|by split; [left|]].
  rewrite log_entry_eq. cbn [snd]. split.
  - destruct (freq_array v) eqn:E; [|done]. right. by exists v.
  - intros [|(v' & [= <-] & ->)]; done.
Qed.

Lemma line_inj c maxF avgF c' maxF' avgF' :
  line c maxF avgF = line c' maxF' avgF' -> maxF = maxF' /\ avgF = avgF'.
Proof. unfold line. by intros [= _ -> ->]. Qed.

Lemma report_eq (events : Registry) :
  report events = report_line events Keyboard ++ report_line events Mouse.
Proof. unfold report. by rewrite logEventData_eq. Qed.

Lemma label_in_report_line (events : Registry) c c' :
  OutStr (TimedEventTypeToString c) ∈ report_line events c' -> c = c'.
Proof.
  unfold report_line. destruct (events !! c') as [v|]; [|by intros ?%elem_of_nil].
  rewrite log_entry_eq. cbn [snd]. destruct (Vec.empty _); [by intros ?%elem_of_nil|].
  unfold line. rewrite !elem_of_cons, elem_of_nil.
  destruct c, c'; cbn; intros H; try done;
    repeat (destruct H as [H|H]; [discriminate|]); done.
Qed.

Lemma line_count_app out1 out2 :
  line_count (out1 ++ out2) = (line_count out1 + line_count out2)%nat.
Proof.
  induction out1 as [|[] out1 IH]; cbn; [done | done | done | by rewrite IH].
Qed.

Lemma line_count_report_line (events : Registry) c :
  line_count (report_line events c) = Nat.b2n (has_samples events c).
Proof.
  unfold report_line, has_samples. destruct (events !! c) as [v|]; [|done].
  rewrite log_entry_eq. cbn [snd]. by destruct (Vec.empty _).
Qed.

Lemma registry_size (events : Registry) :
  size events = (present events Keyboard + present events Mouse)%nat.
Proof.
  assert (forall m : Registry,
            m !! Keyboard = None -> m !! Mouse = None -> size m = 0%nat) as H0.
  { intros m Hk Hm. apply map_size_empty_iff, map_empty. by intros []. }
  assert (forall m : Registry,
            m !! Keyboard = None -> size m = present m Mouse) as H1.
  { intros m Hk. unfold present. destruct (m !! Mouse) as [x|] eqn:Em.
    - rewrite <- (insert_delete_id m Mouse x Em).
      rewrite map_size_insert_None by apply lookup_delete_eq.
      rewrite H0; [done | by rewrite lookup_delete_ne | apply lookup_delete_eq].
    - by apply H0. }
  unfold present at 1. destruct (events !! Keyboard) as [k|] eqn:Ek.
  - rewrite <- (insert_delete_id events Keyboard k Ek) at 1.
    rewrite map_size_insert_None by apply lookup_delete_eq.
    rewrite H1 by apply lookup_delete_eq.
    unfold present. by rewrite lookup_delete_ne.
  - by apply H1.
Qed.

(** Where the line of a class with a non-empty window stands in the
    output of [logEventData]. *)
Lemma report_split (events : Registry) c v :
  events !! c = Some v -> freq_array v <> [] ->
  exists pre post,
    report events
      = pre ++ line c (fold_left Double.max (freq_array v) Double.zero)
                      (mean (freq_array v)) ++ post /\
    (OutStr (TimedEventTypeToString c) ∉ pre) /\
    (OutStr (TimedEventTypeToString c) ∉ post) /\
    report_line events c
      = line c (fold_left Double.max (freq_array v) Double.zero)
               (mean (freq_array v)).
Proof.
  intros Hv Hne.
  assert (report_line events c
          = line c (fold_left Double.max (freq_array v) Double.zero)
                   (mean (freq_array v))) as Hline.
  { unfold report_line. rewrite Hv, log_entry_eq. cbn [snd].
    by destruct (freq_array v). }
  rewrite report_eq. destruct c.
  - exists [], (report_line events Mouse). rewrite Hline.
    split; [done|]. split; [apply not_elem_of_nil|]. split; [|done].
    by intros Hin%label_in_report_line.
  - exists (report_line events Keyboard), []. rewrite Hline, app_nil_r.
    split; [done|]. split; [|split; [apply not_elem_of_nil | done]].
    by intros Hin%label_in_report_line.
Qed.

(** ** The properties stated by the specification *)

(** C1. After any sequence of calls from the empty registry, every entry
    has [timestamps] and [freq_array] of the same length, at most 64.
    When the timestamps passed for a class are strictly increasing and
    more than 64 in number, both vectors have length exactly 64:
    [timestamps] holds the last 64 timestamps passed, [freq_array] the
    last 64 of their frequency samples, in arrival order. *)
Theorem window_bound (calls : list (TimedEventType * Z)) :
  exists events,
    processEvents calls ∅ = Some events /\
    (forall c v, events !! c = Some v ->
       length (timestamps v) = length (freq_array v) /\
       (length (timestamps v) <= 64)%nat /\ (length (freq_array v) <= 64)%nat) /\
    (forall c,
       let l := class_timestamps c calls in
       Forall U32.in_range l -> strictly_increasing l -> (64 < length l)%nat ->
       exists v, events !! c = Some v /\
         length (timestamps v) = 64%nat /\ length (freq_array v) = 64%nat /\
         timestamps v = lastn 64 l /\
         freq_array v = lastn 64 (samples l)).
Proof.
  destruct (processEvents_ok calls ∅ registry_ok_empty) as (events & H & Hok).
  exists events. split; [done|]. split.
  - intros c v Hv. destruct (Hok c v Hv) as [_ [Hp Hb _]]. lia.
  - intros c l Hr Hs Hlen.
    pose proof (processEvents_class c calls ∅ events H) as Hc.
    rewrite lookup_empty in Hc. cbn [default from_option] in Hc. fold l in Hc.
    rewrite record_states_fresh in Hc
      by (by apply strictly_increasing_no_duplicate).
    rewrite samples_increasing in Hc by done.
    injection Hc as Hc. destruct (events !! c) as [v|] eqn:E.
    + cbn [default from_option id] in Hc. subst v. eexists. split; [done|].
      cbn [timestamps freq_array].
      unfold samples. rewrite !lastn_length, samples_with_length.
      repeat split; lia.
    + apply (f_equal (fun x => length (timestamps x))) in Hc.
      cbn [default from_option EventData_default timestamps length] in Hc.
      rewrite lastn_length in Hc. lia.
Qed.

(** An instance of [window_bound]: after 100 calls, one every 10 ms, the
    window holds the timestamps 360, 370, ..., 990 and 64 samples of
    100 Hz. *)
Lemma window_bound_100 :
  exists events v,
    processEvents (periodic_calls Keyboard 10 100) ∅ = Some events /\
    events !! Keyboard = Some v /\
    timestamps v = (fun i => 10 * Z.of_nat i) <$> seq 36 64 /\
    freq_array v = replicate 64 (frequency 10).
Proof.
  destruct (window_bound (periodic_calls Keyboard 10 100))
    as (events & H & _ & Hc).
  destruct (Hc Keyboard) as (v & Hv & _ & _ & Hts & Hfs).
  - apply (bool_decide_unpack _). vm_compute. exact I.
  - vm_compute. repeat split.
  - vm_compute. lia.
  - exists events, v. repeat split; [done..| |].
    + rewrite Hts. vm_compute. reflexivity.
    + rewrite Hfs. vm_compute. reflexivity.
Defined.

(** C2. On a registry the program can hold, a call returns, and for the
    window of its class: when [freq_array] was empty the call appends the
    sample [0.0] (the first sample of the class); otherwise, the
    timestamp differing from the last one of the window, it appends
    [1000.0 / (timestamp - last)] and keeps the last 64 elements. The
    difference is the unsigned one, which is the mathematical one when
    [last <= timestamp]. *)
Theorem record_appends_frequency calls t e (events : Registry) :
  processEvents calls ∅ = Some events ->
  let v := default EventData_default (events !! t) in
  exists events' v',
    processEvent t e events = Some events' /\
    events' !! t = Some v' /\
    (freq_array v = [] ->
       freq_array v' = [Double.zero] /\ timestamps v' = [e]) /\
    (forall lst,
       freq_array v <> [] -> last (timestamps v) = Some lst -> e <> lst ->
       let f := Double.div (Double.of_Z 1000) (Double.of_Z (U32.sub e lst)) in
       freq_array v' = lastn 64 (freq_array v ++ [f]) /\
       last (freq_array v') = Some f /\
       timestamps v' = lastn 64 (timestamps v ++ [e]) /\
       (U32.in_range e -> U32.in_range lst -> lst <= e ->
        U32.sub e lst = e - lst)).
Proof.
  intros H v.
  pose proof (lookup_default_window events t (reachable_ok _ (ex_intro _ calls H)))
    as Hw. fold v in Hw.
  destruct (processEvent t e events) as [events'|] eqn:He.
  2:{ rewrite processEvent_record_state in He. fold v in He.
      destruct (record_state_ok v e Hw) as (v' & Hv' & _).
      by rewrite Hv' in He. }
  destruct (processEvent_own _ _ _ _ He) as (v' & Hv' & Hl). fold v in Hv'.
  destruct Hw as [Hlen Hle Hnn].
  rewrite record_state_parallel in Hv' by done.
  exists events', v'. split; [done|]. split; [exact Hl|]. split.
  - intros Hnil. rewrite Hnil in Hlen, Hv'.
    destruct (timestamps v) as [|t0 ts] eqn:Ets; [|done].
    replace (is_duplicate v e) with false in Hv'
      by (symmetry; apply is_duplicate_false; by rewrite Ets).
    by injection Hv' as <-.
  - intros lst _ Hlast Hne f.
    replace (is_duplicate v e) with false in Hv'
      by (symmetry; apply is_duplicate_false; rewrite Hlast; congruence).
    injection Hv' as <-. cbn [timestamps freq_array]. rewrite Hlast.
    split; [done|]. split; [by rewrite lastn_last, last_snoc|].
    split; [done|]. intros He' Hl' Hle'.
    unfold U32.sub, U32.in_range in *. by rewrite Z.mod_small by lia.
Qed.

(** An instance of [record_appends_frequency]: after a call at 1000 ms,
    a call at 1010 ms appends 1000/10 = 100.0. *)
Lemma record_appends_frequency_1000_1010 :
  exists ev1 ev2 v2 f,
    processEvent Mouse 1000 ∅ = Some ev1 /\
    processEvent Mouse 1010 ev1 = Some ev2 /\
    ev2 !! Mouse = Some v2 /\
    freq_array v2 = [Double.zero; f] /\
    f = Double.div (Double.of_Z 1000) (Double.of_Z (1010 - 1000)) /\
    Double.has_value f 100.
Proof.
  destruct (record_appends_frequency [] Mouse 1000 ∅ eq_refl)
    as (ev1 & v1 & H1 & Hl1 & Hfirst & _).
  destruct Hfirst as [Hf1 Ht1]; [by rewrite lookup_empty|].
  assert (processEvents [(Mouse, 1000)] ∅ = Some ev1) as Hrun.
  { cbn [processEvents]. by rewrite H1. }
  destruct (record_appends_frequency [(Mouse, 1000)] Mouse 1010 ev1 Hrun)
    as (ev2 & v2 & H2 & Hl2 & _ & Hnext).
  rewrite Hl1 in Hnext. cbn [default from_option id] in Hnext.
  rewrite Hf1, Ht1 in Hnext.
  destruct (Hnext 1000) as (Hfs & _ & _ & Hsub); [done..|].
  rewrite Hsub in Hfs by (unfold U32.in_range, U32.modulus; lia).
  exists ev1, ev2, v2. eexists.
  split; [done|]. split; [done|]. split; [done|]. split; [exact Hfs|].
  split; [done|]. vm_compute. reflexivity.
Defined.

(** C3. A call whose timestamp equals the last one of the window of its
    class returns with the registry unchanged; hence the second of two
    consecutive calls with the same class and timestamp changes
    nothing. *)
Theorem duplicate_suppression t e (events : Registry) :
  (forall v, events !! t = Some v -> last (timestamps v) = Some e ->
     processEvent t e events = Some events) /\
  (reachable events ->
     exists events', processEvent t e events = Some events' /\
                     processEvent t e events' = Some events').
Proof.
  split; [intros v; apply processEvent_duplicate|].
  intros Hr. pose proof (reachable_ok _ Hr) as Hok.
  destruct (processEvent_ok t e events Hok) as (events' & H & _).
  exists events'. split; [done|].
  destruct (processEvent_own _ _ _ _ H) as (v' & Hv' & Hl).
  eapply processEvent_duplicate; [done|].
  eapply record_state_last; [|done]. by apply lookup_default_window.
Qed.

(** An instance of [duplicate_suppression]: two calls at 5 ms for
    [Mouse]; the second leaves the registry of the first. *)
Lemma duplicate_suppression_example :
  exists ev1,
    processEvent Mouse 5 ∅ = Some ev1 /\
    processEvent Mouse 5 ev1 = Some ev1 /\
    processEvents [(Mouse, 5); (Mouse, 5)] ∅ = Some ev1.
Proof.
  destruct (duplicate_suppression Mouse 5 ∅) as [_ H].
  destruct H as (ev1 & H1 & H2); [by exists []|].
  exists ev1. split; [done|]. split; [done|].
  cbn [processEvents]. rewrite H1. cbn. by rewrite H2.
Defined.

(** C4. Feeding the timestamps 0, 10, 10, 30 to class [Mouse] leaves the
    timestamps [0; 10; 30] (length 3, the duplicate 10 dropped) and the
    frequencies 0.0, 100.0 (= 1000/10) and 50.0 (= 1000/(30 - 10)). *)
Theorem scenario_mouse :
  exists events v f1 f2,
    processEvents [(Mouse, 0); (Mouse, 10); (Mouse, 10); (Mouse, 30)] ∅
      = Some events /\
    events !! Mouse = Some v /\
    timestamps v = [0; 10; 30] /\ length (timestamps v) = 3%nat /\
    freq_array v = [Double.zero; f1; f2] /\
    f1 = frequency 10 /\ Double.has_value f1 100 /\
    f2 = frequency (30 - 10) /\ Double.has_value f2 50.
Proof.
  assert (processEvents [(Mouse, 0); (Mouse, 10); (Mouse, 10); (Mouse, 30)] ∅
            ≫= (fun events => events !! Mouse)
          = Some {| timestamps := [0; 10; 30];
                    freq_array := [Double.zero; frequency 10; frequency (30 - 10)];
                    average_freq := Double.zero |}) as H
    by (vm_compute; reflexivity).
  destruct (processEvents _ ∅) as [events|]; [|done]. cbn in H.
  exists events. eexists. exists (frequency 10), (frequency (30 - 10)).
  split; [done|]. split; [exact H|].
  repeat split; vm_compute; reflexivity.
Qed.

(** C5. For every class whose window is non-empty the output of
    [logEventData] holds the line of the class, and no other item with
    its label: the line carries as [Avg] the sum of the window
    (accumulated from 0.0) divided by its length, and as [Max] the
    greatest element of the window; the latter because the samples are
    non-negative numbers, as they are in every registry the program can
    hold. *)
Theorem report_mean_max (events : Registry) c v :
  events !! c = Some v ->
  freq_array v <> [] ->
  exists maxF avgF pre post,
    report events = pre ++ line c maxF avgF ++ post /\
    (OutStr (TimedEventTypeToString c) ∉ pre) /\
    (OutStr (TimedEventTypeToString c) ∉ post) /\
    report events = report_line events Keyboard ++ report_line events Mouse /\
    report_line events c = line c maxF avgF /\
    avgF = Double.div (sum (freq_array v))
                      (Double.of_Z (Z.of_nat (length (freq_array v)))) /\
    (Forall (fun f => Double.nonneg f = true) (freq_array v) ->
     is_maximum maxF (freq_array v)) /\
    (reachable events -> is_maximum maxF (freq_array v)).
Proof.
  intros Hv Hfs.
  destruct (report_split events c v Hv Hfs) as (pre & post & Hrep & Hpre & Hpost & Hline).
  eexists _, _, pre, post. split; [exact Hrep|]. split; [done|]. split; [done|].
  split; [apply report_eq|]. split; [exact Hline|]. split; [done|].
  assert (Forall (fun f => Double.nonneg f = true) (freq_array v) ->
          is_maximum (fold_left Double.max (freq_array v) Double.zero)
                     (freq_array v)) as Hmax
    by (by apply fold_max_is_maximum).
  split; [done|]. intros Hr. apply Hmax.
  by destruct (reachable_ok events Hr c v Hv) as [_ [_ _ Hnn]].
Qed.

(** An instance of [report_mean_max], with both classes in the registry:
    Keyboard at 0 and 1 ms, Mouse at 0, 10, 30 and 40 ms. The Mouse
    window is [0.0; 100.0; 50.0; 100.0], and the output is the line of
    Keyboard (Max 1000, Avg 500) followed by the line of Mouse, Max 100
    and Avg 62.5 = (0 + 100 + 50 + 100) / 4, the sentinel included. *)
Lemma report_mean_max_example :
  exists events v maxF avgF,
    processEvents [(Keyboard, 0); (Mouse, 0); (Keyboard, 1);
                   (Mouse, 10); (Mouse, 30); (Mouse, 40)] ∅
      = Some events /\
    events !! Mouse = Some v /\
    freq_array v = [Double.zero; Double.of_Z 100; Double.of_Z 50; Double.of_Z 100] /\
    report events = line Keyboard (Double.of_Z 1000) (Double.of_Z 500)
                    ++ line Mouse maxF avgF /\
    Double.has_value maxF 100 /\ Double.has_value avgF 62.5.
Proof.
  set (calls := [(Keyboard, 0); (Mouse, 0); (Keyboard, 1);
                 (Mouse, 10); (Mouse, 30); (Mouse, 40)]).
  destruct (processEvents_ok calls ∅ registry_ok_empty) as (events & H & _).
  pose proof (processEvents_class Mouse calls ∅ events H) as Hm.
  pose proof (processEvents_class Keyboard calls ∅ events H) as Hk.
  rewrite lookup_empty in Hm, Hk.
  replace (record_states _ _)
    with (Some {| timestamps := [0; 10; 30; 40];
                  freq_array := [Double.zero; Double.of_Z 100;
                                 Double.of_Z 50; Double.of_Z 100];
                  average_freq := Double.zero |}) in Hm
    by (vm_compute; reflexivity).
  replace (record_states _ _)
    with (Some {| timestamps := [0; 1];
                  freq_array := [Double.zero; Double.of_Z 1000];
                  average_freq := Double.zero |}) in Hk
    by (vm_compute; reflexivity).
  destruct (events !! Mouse) as [v|] eqn:Ev; [|discriminate Hm].
  destruct (events !! Keyboard) as [k|] eqn:Ek; [|discriminate Hk].
  injection Hm as Hm. injection Hk as Hk. cbn [default from_option id] in Hm, Hk.
  destruct (report_mean_max events Mouse v Ev)
    as (maxF & avgF & pre & post & _ & _ & _ & Hrep & Hline & Havg & _);
    [by rewrite <- Hm|].
  exists events, v, maxF, avgF. split; [done|]. split; [done|].
  assert (report_line events Keyboard
          = line Keyboard (Double.of_Z 1000) (Double.of_Z 500)) as Hkl.
  { unfold report_line. rewrite Ek, log_entry_eq, <- Hk. cbn [snd freq_array Vec.empty].
    unfold line. repeat f_equal; vm_compute; reflexivity. }
  rewrite Hrep, Hkl, Hline.
  unfold report_line in Hline. rewrite Ev, log_entry_eq in Hline.
  cbn [snd] in Hline. rewrite <- Hm in Hline, Havg |- *.
  cbn [freq_array Vec.empty] in Hline, Havg |- *.
  apply line_inj in Hline as [Hmax _]. rewrite <- Hmax, Havg.
  split; [vm_compute; reflexivity|]. split; [done|].
  split; vm_compute; reflexivity.
Defined.

(** C6. [logEventData] returns for every registry; it writes nothing
    for a class whose window is empty (or that is absent), its label
    appears nowhere in the output, the number of lines is the number of
    classes with a non-empty window, and the empty registry gives no
    output. *)
Theorem report_omission (events : Registry) :
  (exists out, logEventData events = (events, out)) /\
  (forall c,
     (events !! c = None \/ exists v, events !! c = Some v /\ freq_array v = []) ->
     report_line events c = [] /\
     OutStr (TimedEventTypeToString c) ∉ report events) /\
  line_count (report events)
    = (Nat.b2n (has_samples events Keyboard) + Nat.b2n (has_samples events Mouse))%nat /\
  report ∅ = [].
Proof.
  split; [eexists; apply logEventData_eq|]. split; [|split].
  - intros c Hc. apply report_line_empty in Hc. split; [done|].
    rewrite report_eq. intros [Hin|Hin]%elem_of_app;
      pose proof (label_in_report_line _ _ _ Hin) as ->;
      rewrite Hc in Hin; by apply elem_of_nil in Hin.
  - by rewrite report_eq, line_count_app, !line_count_report_line.
  - done.
Qed.

(** An instance of [report_omission]: a registry whose only entry has an
    empty window gives no output. *)
Lemma report_omission_example :
  report_line idle_keyboard Keyboard = [] /\
  (OutStr "Keyboard" ∉ report idle_keyboard) /\
  line_count (report idle_keyboard) = 0%nat.
Proof.
  destruct (report_omission idle_keyboard) as (_ & Hc & Hn & _).
  destruct (Hc Keyboard) as [H1 H2].
  { right. exists EventData_default. split; [|done]. apply lookup_singleton_eq. }
  split; [done|]. split; [exact H2|]. rewrite Hn. reflexivity.
Defined.

(** C7. Along any sequence of calls the entry of class [c] is not
    changed by the calls for the other class: calls for other classes
    alone leave it as it was, and in an interleaving it ends as it does
    when only the calls for [c] are made. *)
Theorem cross_class_independence c calls (events events' : Registry) :
  processEvents calls events = Some events' ->
  (Forall (fun call => call.1 <> c) calls -> events' !! c = events !! c) /\
  (exists events_c,
     processEvents (filter (fun call => call.1 = c) calls) events = Some events_c /\
     events_c !! c = events' !! c).
Proof.
  intros H. split.
  - intros Hall. by eapply processEvents_frame.
  - by eapply processEvents_filter.
Qed.

(** An instance of [cross_class_independence]: the Mouse entry after
    Keyboard, Mouse, Keyboard, Mouse calls is the one after the two Mouse
    calls alone. *)
Lemma cross_class_independence_example :
  exists events' events_c,
    processEvents [(Keyboard, 5); (Mouse, 7); (Keyboard, 9); (Mouse, 27)] ∅
      = Some events' /\
    processEvents [(Mouse, 7); (Mouse, 27)] ∅ = Some events_c /\
    events_c !! Mouse = events' !! Mouse /\
    timestamps <$> events' !! Mouse = Some [7; 27] /\
    timestamps <$> events' !! Keyboard = Some [5; 9].
Proof.
  set (calls := [(Keyboard, 5); (Mouse, 7); (Keyboard, 9); (Mouse, 27)]).
  destruct (processEvents calls ∅) as [events'|] eqn:H;
    [|by vm_compute in H].
  destruct (cross_class_independence Mouse calls ∅ events' H)
    as (_ & events_c & Hc & Heq).
  exists events', events_c. split; [done|]. split; [exact Hc|].
  split; [exact Heq|].
  assert (processEvents calls ∅ ≫= (fun ev => timestamps <$> ev !! Mouse)
          = Some [7; 27]) as Hm by (vm_compute; reflexivity).
  assert (processEvents calls ∅ ≫= (fun ev => timestamps <$> ev !! Keyboard)
          = Some [5; 9]) as Hk by (vm_compute; reflexivity).
  rewrite H in Hm, Hk. by split.
Defined.

(** C8. On a registry the program can hold, [processEvent] returns for
    every class and timestamp. When the timestamp is smaller than the
    last one recorded for the class, a sample is still appended:
    [1000.0 / d] with [d] the difference modulo [2^32], that is the
    difference plus [2^32]; the sample is a non-negative number. *)
Theorem out_of_order_accepted calls (events : Registry) t e :
  processEvents calls ∅ = Some events ->
  exists events',
    processEvent t e events = Some events' /\
    forall v lst,
      events !! t = Some v -> last (timestamps v) = Some lst -> e < lst ->
      exists v' f,
        events' !! t = Some v' /\
        last (timestamps v') = Some e /\
        last (freq_array v') = Some f /\
        length (freq_array v') = Nat.min 64 (S (length (freq_array v))) /\
        f = Double.div (Double.of_Z 1000)
                       (Double.of_Z ((e - lst) mod 2 ^ 32)) /\
        Double.nonneg f = true /\
        (U32.in_range e -> U32.in_range lst ->
         (e - lst) mod 2 ^ 32 = e - lst + 2 ^ 32).
Proof.
  intros H. pose proof (reachable_ok _ (ex_intro _ calls H)) as Hok.
  destruct (processEvent_ok t e events Hok) as (events' & He & _).
  exists events'. split; [done|]. intros v lst Hv Hlast Hlt.
  destruct (processEvent_own _ _ _ _ He) as (v' & Hv' & Hl).
  rewrite Hv in Hv'. cbn [default from_option id] in Hv'.
  destruct (Hok t v Hv) as [Hne [Hlen Hle Hnn]].
  rewrite record_state_parallel in Hv' by done.
  replace (is_duplicate v e) with false in Hv'.
  2:{ symmetry. apply is_duplicate_false. rewrite Hlast. intros [= ->]. lia. }
  injection Hv' as <-. eexists _, _. split; [exact Hl|].
  cbn [timestamps freq_array]. rewrite !lastn_last, !last_snoc, Hlast.
  split; [done|]. split; [done|]. split.
  { rewrite lastn_length, length_app. cbn [length]. f_equal. lia. }
  split; [done|]. split.
  - apply (sample_after_nonneg (Some lst)).
  - unfold U32.in_range, U32.modulus. intros He' Hl'.
    symmetry. apply (Z.mod_unique _ _ (-1)); lia.
Qed.

(** An instance of [out_of_order_accepted]: after a call at 100 ms, a
    call at 50 ms appends [1000.0 / 4294967246]. *)
Lemma out_of_order_accepted_example :
  exists ev1 ev2 v2 f,
    processEvent Mouse 100 ∅ = Some ev1 /\
    processEvent Mouse 50 ev1 = Some ev2 /\
    ev2 !! Mouse = Some v2 /\
    last (timestamps v2) = Some 50 /\
    last (freq_array v2) = Some f /\
    length (freq_array v2) = 2%nat /\
    f = Double.div (Double.of_Z 1000) (Double.of_Z 4294967246).
Proof.
  assert (exists ev1, processEvent Mouse 100 ∅ = Some ev1 /\
            ev1 !! Mouse = Some {| timestamps := [100];
                                   freq_array := [Double.zero];
                                   average_freq := Double.zero |})
    as (ev1 & H1 & Hl1).
  { destruct (processEvent Mouse 100 ∅) as [ev1|] eqn:E; [|by vm_compute in E].
    exists ev1. split; [done|].
    destruct (processEvent_own _ _ _ _ E) as (v' & Hv' & ->).
    vm_compute in Hv'. by injection Hv' as <-. }
  assert (processEvents [(Mouse, 100)] ∅ = Some ev1) as Hrun.
  { cbn [processEvents]. by rewrite H1. }
  destruct (out_of_order_accepted [(Mouse, 100)] ev1 Mouse 50 Hrun)
    as (ev2 & H2 & Hf).
  destruct (Hf _ 100 Hl1) as (v2 & f & Hl2 & Hts & Hfs & Hlen & Hfv & _);
    [done | lia |].
  exists ev1, ev2, v2, f. by repeat split.
Defined.

(** C9. [logEventData] leaves the registry as it found it: every entry
    has the same [timestamps] and [freq_array] after the call. *)
Theorem report_read_only (events : Registry) :
  (logEventData events).1 = events /\
  forall c, timestamps <$> (logEventData events).1 !! c = timestamps <$> events !! c /\
            freq_array <$> (logEventData events).1 !! c = freq_array <$> events !! c.
Proof. by rewrite logEventData_eq. Qed.

(** C10. After any sequence of calls from the empty registry, every
    entry of the registry has non-empty [timestamps] and [freq_array]: a
    call for an absent class creates the entry and records its first
    sample at once. A class is absent exactly when no call was made for
    it, and the report writes nothing for a class exactly when the class
    is absent, one line per entry otherwise. *)
Theorem registry_entries_nonempty (calls : list (TimedEventType * Z)) :
  exists events,
    processEvents calls ∅ = Some events /\
    (forall c v, events !! c = Some v ->
       timestamps v <> [] /\ freq_array v <> []) /\
    (forall c e, events !! c = None ->
       exists events',
         processEvent c e events = Some events' /\
         events' !! c = Some {| timestamps := [e];
                                freq_array := [Double.zero];
                                average_freq := Double.zero |}) /\
    (forall c, events !! c = None <-> class_timestamps c calls = []) /\
    (forall c, report_line events c = [] <-> events !! c = None) /\
    line_count (report events) = size events.
Proof.
  destruct (processEvents_ok calls ∅ registry_ok_empty) as (events & H & Hok).
  exists events. split; [done|].
  assert (forall c v, events !! c = Some v ->
            timestamps v <> [] /\ freq_array v <> []) as Hne.
  { intros c v Hv. pose proof (Hok c v Hv) as Hs. split.
    - by destruct Hs.
    - by apply state_ok_freq_nonempty. }
  assert (forall c, report_line events c = [] <-> events !! c = None) as Hrep.
  { intros c. rewrite report_line_empty. split; [|by left].
    intros [|(v & Hv & Hnil)]; [done|]. by destruct (Hne c v Hv). }
  split; [done|]. split; [|split; [|split; [done|]]].
  - intros c e Hnone. rewrite processEvent_record_state, Hnone.
    eexists. split; [reflexivity|]. by rewrite lookup_insert_eq.
  - intros c. pose proof (processEvents_class c calls ∅ events H) as Hc.
    rewrite lookup_empty in Hc. cbn [default from_option] in Hc. split.
    + intros Hnone. rewrite Hnone in Hc. cbn [default from_option] in Hc.
      destruct (class_timestamps c calls) as [|e l] eqn:E; [done|].
      destruct (record_states_ok (e :: l) EventData_default)
        as (v' & Hv' & [Hne' _]); [split; cbn; [done | lia | constructor] | done |].
      rewrite Hv' in Hc. injection Hc as ->. done.
    + intros Hnil. rewrite Hnil in Hc. cbn [record_states] in Hc.
      injection Hc as Hc. destruct (events !! c) as [v|] eqn:E; [|done].
      cbn [default from_option id] in Hc. subst v.
      by destruct (Hne c _ E).
  - rewrite report_eq, line_count_app, !line_count_report_line.
    rewrite registry_size.
    assert (forall c, Nat.b2n (has_samples events c) = present events c) as Hb.
    { intros c. unfold has_samples, present.
      destruct (events !! c) as [v|] eqn:E; [|done].
      destruct (Hne c v E) as [_ Hf]. by destruct (freq_array v). }
    by rewrite !Hb.
Qed.

(** ** Further invariants of the windows *)

Lemma processEvents_entry_invariant (P : EventData -> Prop) :
  (forall v e v', window_ok v -> P v -> record_state v e = Some v' -> P v') ->
  forall calls (ev0 events : Registry),
    registry_ok ev0 ->
    (forall c, P (default EventData_default (ev0 !! c))) ->
    processEvents calls ev0 = Some events ->
    forall c, P (default EventData_default (events !! c)).
Proof.
  intros Hstep. induction calls as [|[t e] calls IH]; intros ev0 events Hok HP H.
  - by injection H as <-.
  - cbn in H. destruct (processEvent t e ev0) as [ev1|] eqn:H1; [|done].
    cbn in H. apply (IH ev1); [| |done].
    + destruct (processEvent_ok t e ev0 Hok) as (ev1' & H1' & Hok1).
      rewrite H1 in H1'. by injection H1' as <-.
    + intros c. destruct (decide (c = t)) as [->|Hne].
      * destruct (processEvent_own _ _ _ _ H1) as (v' & Hv' & ->). cbn.
        eapply Hstep; [|apply (HP t)|exact Hv'].
        by apply lookup_default_window.
      * rewrite (processEvent_frame _ _ _ _ c H1 Hne). apply HP.
Qed.

Lemma reachable_entry_invariant (P : EventData -> Prop) :
  P EventData_default ->
  (forall v e v', window_ok v -> P v -> record_state v e = Some v' -> P v') ->
  forall calls,
    exists events,
      processEvents calls ∅ = Some events /\
      forall c v, events !! c = Some v -> P v.
Proof.
  intros H0 Hstep calls.
  destruct (processEvents_ok calls ∅ registry_ok_empty) as (events & H & _).
  exists events. split; [done|]. intros c v Hv.
  assert (forall c', P (default EventData_default ((∅ : Registry) !! c')))
    as HP0 by (intros c'; by rewrite lookup_empty).
  pose proof (processEvents_entry_invariant P Hstep calls ∅ events
                registry_ok_empty HP0 H c) as HP.
  by rewrite Hv in HP.
Qed.

Lemma snoc_adjacent {A} (l : list A) x i a b :
  (l ++ [x]) !! i = Some a -> (l ++ [x]) !! S i = Some b ->
  (l !! i = Some a /\ l !! S i = Some b) \/
  (last l = Some a /\ b = x /\ S i = length l).
Proof.
  intros Ha Hb. pose proof (lookup_lt_Some _ _ _ Hb) as Hlt.
  rewrite length_app in Hlt. cbn in Hlt.
  destruct (decide (S i < length l)%nat) as [Hin|Hout].
  - left. rewrite lookup_app_l in Ha, Hb by lia. done.
  - right. assert (S i = length l) as Hi by lia.
    rewrite lookup_app_l in Ha by lia.
    rewrite lookup_app_r in Hb by lia.
    replace (S i - length l)%nat with O in Hb by lia. injection Hb as <-.
    split; [|done]. rewrite last_lookup. by rewrite <- Hi.
Qed.

Lemma record_state_cases v e v' :
  window_ok v -> record_state v e = Some v' ->
  v' = v \/
  (last (timestamps v) <> Some e /\
   timestamps v' = lastn 64 (timestamps v ++ [e]) /\
   freq_array v' = lastn 64 (freq_array v ++ [sample_after (last (timestamps v)) e]) /\
   average_freq v' = average_freq v).
Proof.
  intros [Hlen _ _]. rewrite record_state_parallel by done. intros [= <-].
  destruct (is_duplicate v e) eqn:Hdup; [by left|]. right.
  by apply is_duplicate_false in Hdup.
Qed.

(** X1. In every registry built by calls of [processEvent] from the
    empty one, no window holds the same timestamp at two consecutive
    positions. *)
Theorem window_no_adjacent_duplicate (calls : list (TimedEventType * Z)) :
  exists events,
    processEvents calls ∅ = Some events /\
    forall c v i a b,
      events !! c = Some v ->
      timestamps v !! i = Some a -> timestamps v !! S i = Some b -> a <> b.
Proof.
  destruct (reachable_entry_invariant
              (fun v => forall i a b, timestamps v !! i = Some a ->
                                      timestamps v !! S i = Some b -> a <> b))
    with (calls := calls) as (events & H & HP).
  - intros i a b Ha. cbn in Ha. by rewrite lookup_nil in Ha.
  - intros v e v' Hw HPv Hv'.
    destruct (record_state_cases v e v' Hw Hv') as [->|(Hlast & Hts & _)]; [done|].
    intros i a b. rewrite Hts. unfold lastn. rewrite !lookup_drop.
    rewrite Nat.add_succ_r. intros Ha Hb.
    destruct (snoc_adjacent _ _ _ _ _ Ha Hb) as [[Ha' Hb']|(Hl & -> & _)].
    + by eapply HPv.
    + congruence.
  - exists events. split; [done|]. intros c v i a b Hv. apply (HP c v Hv).
Qed.

(** X2. In every such registry the windows are coherent: the sample at
    a position after the first is [1000.0 / d], with [d] the unsigned
    difference of the timestamp at that position and the one before it.
    Eviction keeps the samples as they were computed. *)
Theorem window_coherent (calls : list (TimedEventType * Z)) :
  exists events,
    processEvents calls ∅ = Some events /\
    forall c v i a b,
      events !! c = Some v ->
      timestamps v !! i = Some a -> timestamps v !! S i = Some b ->
      freq_array v !! S i
        = Some (Double.div (Double.of_Z 1000) (Double.of_Z (U32.sub b a))).
Proof.
  destruct (reachable_entry_invariant
              (fun v => forall i a b, timestamps v !! i = Some a ->
                                      timestamps v !! S i = Some b ->
                                      freq_array v !! S i = Some (frequency (U32.sub b a))))
    with (calls := calls) as (events & H & HP).
  - intros i a b Ha. cbn in Ha. by rewrite lookup_nil in Ha.
  - intros v e v' Hw HPv Hv'.
    destruct (record_state_cases v e v' Hw Hv') as [->|(Hlast & Hts & Hfs & _)];
      [done|].
    destruct Hw as [Hlen _ _].
    intros i a b. rewrite Hts, Hfs. unfold lastn.
    rewrite !lookup_drop, !Nat.add_succ_r, !length_app, <- Hlen. cbn [length].
    intros Ha Hb.
    destruct (snoc_adjacent _ _ _ _ _ Ha Hb) as [[Ha' Hb']|(Hl & -> & Hi)].
    + rewrite lookup_app_l by (rewrite <- Hlen; by eapply lookup_lt_Some).
      by apply HPv.
    + rewrite Hi, Hlen, list_lookup_middle by done. by rewrite Hl.
  - exists events. split; [done|]. intros c v i a b Hv. apply (HP c v Hv).
Qed.

(** X3. The member [average_freq] is never written: it is [0.0] in every
    entry of every registry built by calls of [processEvent]. *)
Theorem average_freq_untouched (calls : list (TimedEventType * Z)) :
  exists events,
    processEvents calls ∅ = Some events /\
    forall c v, events !! c = Some v -> average_freq v = Double.zero.
Proof.
  apply (reachable_entry_invariant (fun v => average_freq v = Double.zero));
    [done|].
  intros v e v' Hw HPv Hv'.
  destruct (record_state_cases v e v' Hw Hv') as [->|(_ & _ & _ & ->)]; done.
Qed.

(** ** Further properties of the statistics *)








Lemma leb_ltb_false (a b : double) :
  Double.leb a b = true -> Double.ltb b a = false.
Proof.
  unfold Double.leb, Double.ltb, SFleb, SFltb. rewrite (compare_antisym a b).
  by destruct (SFcompare a b) as [[]|].
Qed.

Lemma ltb_not_nan (a b : double) :
  Double.ltb a b = true -> Double.is_nan b = false.
Proof. by destruct a as [| | |], b as [| | |]. Qed.

Lemma fold_max_floor fs acc :
  Double.is_nan acc = false ->
  let M := fold_left Double.max fs acc in
  Double.leb acc M = true /\
  (forall x, x ∈ fs -> Double.ltb M x = false) /\
  (M = acc \/ M ∈ fs).
Proof.
  revert acc. induction fs as [|f fs IH]; intros acc Hacc; cbn.
  - split; [by apply leb_refl|]. split; [|by left].
    intros x Hx. by apply elem_of_nil in Hx.
  - assert (Double.is_nan (Double.max acc f) = false /\
            Double.leb acc (Double.max acc f) = true /\
            Double.ltb (Double.max acc f) f = false) as (Hn & Ha & Hf).
    { unfold Double.max. destruct (Double.ltb acc f) eqn:Hlt.
      - pose proof (ltb_not_nan _ _ Hlt) as Hfn. split; [done|].
        split; [by apply ltb_leb|]. by apply leb_ltb_false, leb_refl.
      - split; [done|]. split; [by apply leb_refl | done]. }
    destruct (IH (Double.max acc f) Hn) as (Hge & Hub & Hmem).
    split; [by eapply leb_trans|]. split.
    + intros x [->|Hx]%elem_of_cons; [|by apply Hub].
      destruct (Double.is_nan f) eqn:Hfn; [by destruct f, (fold_left _ _ _)|].
      apply leb_ltb_false. eapply leb_trans; [|exact Hge].
      apply leb_total; [done | done | exact Hf].
    + destruct Hmem as [->|Hmem]; [|by right; right].
      unfold Double.max. destruct (Double.ltb acc f); [right; left | left]; done.
Qed.

(** X5. Whatever a non-empty window holds, negative samples and NaN
    included, the output of [logEventData] holds the line of the class,
    and no other item with its label, and the [Max] on it is a number
    not below [0.0] that no sample exceeds; it is [0.0] itself or a
    sample of the window. A window without a positive sample is
    reported with [Max: 0]. *)
Theorem report_max_floor (events : Registry) c v :
  events !! c = Some v ->
  freq_array v <> [] ->
  exists maxF avgF pre post,
    report events = pre ++ line c maxF avgF ++ post /\
    (OutStr (TimedEventTypeToString c) ∉ pre) /\
    (OutStr (TimedEventTypeToString c) ∉ post) /\
    report events = report_line events Keyboard ++ report_line events Mouse /\
    report_line events c = line c maxF avgF /\
    Double.leb Double.zero maxF = true /\
    (forall x, x ∈ freq_array v -> Double.ltb maxF x = false) /\
    (maxF = Double.zero \/ maxF ∈ freq_array v).
Proof.
  intros Hv Hne.
  destruct (report_split events c v Hv Hne) as (pre & post & Hrep & Hpre & Hpost & Hline).
  eexists _, _, pre, post. split; [exact Hrep|]. split; [done|]. split; [done|].
  split; [apply report_eq|]. split; [exact Hline|].
  by apply (fold_max_floor (freq_array v) Double.zero).
Qed.

(** An instance of [report_max_floor], with both classes in the
    registry: the output is the line of Keyboard (Max 1000, Avg 500)
    followed by the line of Mouse, whose window holds [-1.0] alone and
    whose maximum is written as [0.0]. *)
Lemma report_max_floor_negative :
  exists avgF,
    report negative_mouse
      = line Keyboard (Double.of_Z 1000) (Double.of_Z 500)
        ++ line Mouse Double.zero avgF /\
    Double.has_value (Double.of_Z (-1)) (-1).
Proof.
  assert (negative_mouse !! Mouse
          = Some {| timestamps := [5]; freq_array := [Double.of_Z (-1)];
                    average_freq := Double.zero |}) as Hm.
  { unfold negative_mouse. rewrite lookup_insert_ne by done.
    apply lookup_singleton_eq. }
  destruct (report_max_floor negative_mouse Mouse _ Hm)
    as (maxF & avgF & pre & post & _ & _ & _ & Hrep & Hline & Hge & _ & Hmem);
    [done|].
  exists avgF. split; [|vm_compute; reflexivity].
  assert (report_line negative_mouse Keyboard
          = line Keyboard (Double.of_Z 1000) (Double.of_Z 500)) as Hk.
  { unfold report_line, negative_mouse. rewrite lookup_insert_eq, log_entry_eq.
    cbn [snd freq_array Vec.empty]. unfold line.
    repeat f_equal; vm_compute; reflexivity. }
  rewrite Hrep, Hk, Hline. cbn [freq_array] in Hmem.
  destruct Hmem as [->|Hin]; [done|].
  apply list_elem_of_singleton in Hin. subst maxF.
  vm_compute in Hge. discriminate Hge.
Defined.

(** X6. A call never shortens the window of its class: the window keeps
    its length when it is full (64 samples) or the timestamp repeats the
    last one, and grows by exactly one sample otherwise. *)
Theorem window_length_step (calls : list (TimedEventType * Z)) t e :
  exists events events',
    processEvents calls ∅ = Some events /\
    processEvent t e events = Some events' /\
    let v := default EventData_default (events !! t) in
    let v' := default EventData_default (events' !! t) in
    let n := length (freq_array v) in
    let n' := length (freq_array v') in
    (n <= n' <= S n)%nat /\
    (n = 64%nat -> n' = 64%nat) /\
    (n' = n <-> n = 64%nat \/ last (timestamps v) = Some e).
Proof.
  destruct (processEvents_ok calls ∅ registry_ok_empty) as (events & H & Hok).
  destruct (processEvent_ok t e events Hok) as (events' & H' & _).
  exists events, events'. split; [done|]. split; [done|].
  destruct (processEvent_own _ _ _ _ H') as (v' & Hv' & ->).
  cbn [default from_option id].
  pose proof (lookup_default_window events t Hok) as Hw.
  destruct Hw as [Hlen Hle _]. rewrite record_state_parallel in Hv' by done.
  destruct (is_duplicate _ e) eqn:Hdup; injection Hv' as <-.
  - apply is_duplicate_spec in Hdup. split; [lia|]. split; [done|].
    split; [by right | done].
  - apply is_duplicate_false in Hdup. cbn [freq_array].
    rewrite lastn_length, length_app. cbn [length].
    split; [lia|]. split; [lia|]. split; [lia|].
    intros [->|Hl]; [lia | done].
Qed.

(** X7. After a call, whether it recorded a sample or was dropped as a
    duplicate, the window of its class ends with the timestamp of the
    call. *)
Theorem last_timestamp_recorded (calls : list (TimedEventType * Z)) t e :
  exists events events' v',
    processEvents calls ∅ = Some events /\
    processEvent t e events = Some events' /\
    events' !! t = Some v' /\
    last (timestamps v') = Some e.
Proof.
  destruct (processEvents_ok calls ∅ registry_ok_empty) as (events & H & Hok).
  destruct (processEvent_ok t e events Hok) as (events' & H' & _).
  destruct (processEvent_own _ _ _ _ H') as (v' & Hv' & Hl).
  exists events, events', v'. split; [done|]. split; [done|]. split; [done|].
  eapply record_state_last; [|done]. by apply lookup_default_window.
Qed.

(** X8. The label of a class occurs in the output of [logEventData]
    exactly when the window of the class holds a sample: each line names
    its class, and the labels tell the lines apart. *)
Theorem label_iff_samples (events : Registry) c :
  OutStr (TimedEventTypeToString c) ∈ report events <->
  has_samples events c = true.
Proof.
  rewrite report_eq, elem_of_app. split.
  - intros [Hin|Hin]; pose proof (label_in_report_line _ _ _ Hin) as ->;
      unfold report_line, has_samples in *;
      (destruct (events !! _) as [v|]; [|by apply elem_of_nil in Hin]);
      rewrite log_entry_eq in Hin; cbn [snd] in Hin;
      by destruct (Vec.empty (freq_array v)); [apply elem_of_nil in Hin|].
  - intros Hs. unfold has_samples in Hs.
    assert (OutStr (TimedEventTypeToString c) ∈ report_line events c) as Hin.
    { unfold report_line. destruct (events !! c) as [v|]; [|done].
      rewrite log_entry_eq. cbn [snd].
      destruct (Vec.empty (freq_array v)); [done|].
      unfold line. apply list_elem_of_further, list_elem_of_here. }
    destruct c; [by left | by right].
Qed.

(** ** The driver loop *)

Lemma processEvents_app calls1 calls2 (events : Registry) :
  processEvents (calls1 ++ calls2) events =
    events' ← processEvents calls1 events; processEvents calls2 events'.
Proof.
  revert events. induction calls1 as [|[t e] calls1 IH]; intros events; [done|].
  cbn. destruct (processEvent t e events) as [ev1|]; cbn; [apply IH | done].
Qed.

Lemma handle_event_spec e st :
  handle_event e st =
    events' ← processEvents (option_list (classify e)) (st_events st);
    Some {| st_events := events'; st_loopy := st_loopy st;
            st_sentinel := st_sentinel st || closes e;
            st_cout := st_cout st |}.
Proof.
  unfold handle_event, classify, closes, processWindowEvent.
  destruct st as [ev l s out]. cbn [st_events st_loopy st_sentinel st_cout].
  destruct (ev_type e); cbn;
    try (destruct (processEvent _ _ ev); cbn; by rewrite ?orb_false_r);
    try (by rewrite orb_false_r).
  destruct (window_event e); by rewrite ?orb_true_r, ?orb_false_r.
Qed.

Lemma poll_events_spec l st :
  poll_events l st =
    events' ← processEvents (omap classify l) (st_events st);
    Some {| st_events := events'; st_loopy := st_loopy st;
            st_sentinel := st_sentinel st || existsb closes l;
            st_cout := st_cout st |}.
Proof.
  revert st. induction l as [|e l IH]; intros st.
  - destruct st. cbn. by rewrite orb_false_r.
  - cbn [poll_events]. rewrite handle_event_spec.
    replace (omap classify (e :: l))
      with (option_list (classify e) ++ omap classify l)
      by (cbn; by destruct (classify e)).
    rewrite processEvents_app.
    destruct (processEvents (option_list (classify e)) (st_events st)) as [ev1|];
      [|done].
    cbn [mbind option_bind]. rewrite IH. cbn [st_events st_loopy st_sentinel st_cout].
    destruct (processEvents _ ev1); [|done]. cbn. by rewrite orb_assoc.
Qed.

Lemma iteration_spec i st :
  iteration i st =
    events' ← processEvents (omap classify (polled i)) (st_events st);
    Some (after_iteration i st events').
Proof.
  unfold iteration. rewrite poll_events_spec.
  destruct (processEvents _ (st_events st)) as [ev1|]; [|done].
  cbn [mbind option_bind]. unfold after_iteration, tick, stops, on_signal_int, report.
  cbn [st_events st_loopy st_sentinel st_cout].
  destruct (_ mod 200 =? 0).
  - rewrite logEventData_eq. cbn [st_events st_loopy st_sentinel st_cout snd].
    destruct (interrupted i); by rewrite ?orb_true_r.
  - cbn [st_events st_loopy st_sentinel st_cout].
    destruct (interrupted i); by rewrite ?orb_true_r.
Qed.

Lemma iteration_sentinel i st st' :
  iteration i st = Some st' -> st_sentinel st' = st_sentinel st || stops i.
Proof.
  rewrite iteration_spec. destruct (processEvents _ _); [|done].
  by intros [= <-].
Qed.

Lemma main_loop_iterations inputs st :
  main_loop inputs st = iterations (iterations_run (st_sentinel st) inputs) st.
Proof.
  revert st. induction inputs as [|i inputs IH]; intros st.
  - cbn. by destruct (st_sentinel st).
  - cbn [main_loop iterations_run]. destruct (st_sentinel st) eqn:Hs; [done|].
    cbn [iterations]. destruct (iteration i st) as [st'|] eqn:Hi; [|done].
    cbn [mbind option_bind]. rewrite IH.
    by rewrite (iteration_sentinel _ _ _ Hi), Hs.
Qed.

Lemma iterations_snoc its i st :
  iterations (its ++ [i]) st = st' ← iterations its st; iteration i st'.
Proof.
  revert st. induction its as [|j its IH]; intros st; cbn.
  - by destruct (iteration i st).
  - destruct (iteration j st) as [st1|]; cbn; [apply IH | done].
Qed.

Lemma succ_div_mod_200 (n : nat) :
  (n mod 200 = 199 /\ S n / 200 = S (n / 200) /\ S n mod 200 = 0)%nat \/
  (n mod 200 < 199 /\ S n / 200 = n / 200 /\ S n mod 200 = S (n mod 200))%nat.
Proof.
  pose proof (Nat.div_mod_eq n 200) as Hn.
  pose proof (Nat.mod_upper_bound n 200) as Hr.
  destruct (decide (n mod 200 = 199)%nat) as [He|Hne].
  - left. split; [done|]. split.
    + symmetry. apply (Nat.div_unique _ _ _ 0); lia.
    + symmetry. apply (Nat.mod_unique _ _ (S (n / 200))); lia.
  - right. split; [lia|]. split.
    + symmetry. apply (Nat.div_unique _ _ _ (S (n mod 200))); lia.
    + symmetry. apply (Nat.mod_unique _ _ (n / 200)); lia.
Qed.

Lemma recorded_snoc its i :
  recorded (its ++ [i]) = recorded its ++ omap classify (polled i).
Proof. unfold recorded. by rewrite bind_app, bind_singleton. Qed.

Lemma report_at_snoc its i k :
  (200 * k <= length its)%nat -> report_at (its ++ [i]) k = report_at its k.
Proof. intros Hk. unfold report_at. by rewrite take_app_le. Qed.

Lemma iterations_closed_form its s :
  exists st,
    iterations its (main_entry s) = Some st /\
    processEvents (recorded its) ∅ = Some (st_events st) /\
    st_loopy st = Z.of_nat (length its mod 200) /\
    st_sentinel st = s || existsb stops its /\
    st_cout st = st_cout (main_entry s)
                 ++ concat (report_at its <$> seq 1 (length its / 200)).
Proof.
  induction its as [|i its IH] using rev_ind.
  - exists (main_entry s). split; [done|]. split; [done|]. split; [done|].
    split; [by rewrite orb_false_r|]. cbn. by rewrite ?app_nil_r.
  - destruct IH as (st & Hrun & Hev & Hloopy & Hsen & Hout).
    assert (registry_ok (st_events st)) as Hok
      by (apply reachable_ok; by exists (recorded its)).
    destruct (processEvents_ok (omap classify (polled i)) (st_events st) Hok)
      as (ev2 & Hev2 & _).
    exists (after_iteration i st ev2).
    assert (processEvents (recorded (its ++ [i])) ∅ = Some ev2) as Hrec.
    { rewrite recorded_snoc, processEvents_app, Hev. exact Hev2. }
    split.
    { rewrite iterations_snoc, Hrun. cbn [mbind option_bind].
      by rewrite iteration_spec, Hev2. }
    split; [done|]. unfold after_iteration.
    cbn [st_events st_loopy st_sentinel st_cout].
    rewrite Hloopy, Hsen, Hout, existsb_app, length_app. cbn [existsb length].
    rewrite orb_false_r, orb_assoc, Nat.add_1_r.
    pose proof (Nat.mod_upper_bound (length its) 200) as Hr.
    rewrite (Z.mod_small _ U32.modulus) by (unfold U32.modulus; lia).
    destruct (succ_div_mod_200 (length its)) as [(Hm & -> & ->)|(Hm & -> & ->)].
    + rewrite Hm. change (Z.of_nat 199 + 1) with 200.
      change (200 mod 200 =? 0) with true. cbn beta iota.
      split; [done|]. split; [done|].
      rewrite seq_S, fmap_app, concat_app. cbn [fmap list_fmap concat].
      rewrite app_nil_r, <- app_assoc. f_equal. f_equal.
      * f_equal. apply Forall_fmap_ext_1, Forall_forall.
        intros k Hk%elem_of_seq. symmetry. apply report_at_snoc.
        pose proof (Nat.div_mod_eq (length its) 200). lia.
      * unfold report_at, report. rewrite take_ge; [by rewrite Hrec|].
        rewrite length_app. cbn [length].
        pose proof (Nat.div_mod_eq (length its) 200). lia.
    + replace ((Z.of_nat (length its mod 200) + 1) mod 200 =? 0) with false.
      2:{ symmetry. apply Z.eqb_neq. rewrite Z.mod_small by lia. lia. }
      split; [lia|]. split; [done|]. do 2 f_equal.
      apply Forall_fmap_ext_1, Forall_forall.
      intros k Hk%elem_of_seq. symmetry. apply report_at_snoc.
      pose proof (Nat.div_mod_eq (length its) 200). lia.
Qed.

Lemma iterations_run_all inputs :
  existsb stops (iterations_run false inputs) = false ->
  iterations_run false inputs = inputs.
Proof.
  induction inputs as [|i inputs IH]; [done|]. cbn [iterations_run existsb].
  destruct (stops i); [done|]. cbn. intros H. by rewrite IH.
Qed.

Lemma iterations_run_stop pre i post :
  Forall (fun j => stops j = false) pre -> stops i = true ->
  iterations_run false (pre ++ i :: post) = pre ++ [i].
Proof.
  induction 1 as [|j pre Hj _ IH]; intros Hi; cbn [app iterations_run].
  - rewrite Hi. by destruct post.
  - rewrite Hj. by rewrite IH.
Qed.

Lemma iterations_run_stops s inputs :
  s || existsb stops (iterations_run s inputs) = s || existsb stops inputs.
Proof.
  destruct s; [done|]. cbn [orb].
  induction inputs as [|i inputs IH]; [done|]. cbn [iterations_run existsb].
  destruct (stops i) eqn:Hi; cbn [orb]; [|exact IH]. by destruct inputs.
Qed.

(** X9. Run over any finite sequence of iterations, the loop of [main]
    meets no undefined behaviour, and in the state it reaches (on
    leaving the loop, or with the loop still running when the
    iterations given are used up) the registry is the one built from
    the empty registry by the calls of [processEvent] for the key and
    mouse events of the iterations run, in the order polled: window
    events, other events, the report and the split into iterations have
    no effect on it. [sentinel] is up in that state, and the loop left,
    exactly when it was up on entry or one of the iterations given
    raised it; as long as it is down, every iteration given was run. *)
Theorem main_loop_registry (inputs : list Iteration) (s : bool) :
  exists st,
    main_loop inputs (main_entry s) = Some st /\
    processEvents (recorded (iterations_run s inputs)) ∅ = Some (st_events st) /\
    st_sentinel st = s || existsb stops inputs /\
    (st_sentinel st = false -> iterations_run s inputs = inputs).
Proof.
  destruct (iterations_closed_form (iterations_run s inputs) s)
    as (st & Hrun & Hev & _ & Hsen & _).
  exists st. split; [by rewrite main_loop_iterations|]. split; [done|].
  split; [by rewrite Hsen, iterations_run_stops|].
  rewrite Hsen. destruct s; [done|]. cbn [orb]. apply iterations_run_all.
Qed.

(** An instance of [main_loop_registry]: a thousand iterations that poll
    nothing leave [sentinel] down, the loop running and the registry
    empty; a close event in the third of three iterations raises it,
    with the key and mouse events of all three recorded. *)
Lemma main_loop_registry_example :
  (exists st,
     main_loop (replicate 1000 idle_iteration) (main_entry false) = Some st /\
     st_sentinel st = false /\ st_events st = ∅) /\
  (exists st,
     main_loop
       [mkIteration [mkEvent SDL_KEYDOWN SDL_WINDOWEVENT_OTHER 3;
                     mkEvent SDL_OTHEREVENT SDL_WINDOWEVENT_OTHER 4] false;
        busy_iteration;
        mkIteration [mkEvent SDL_WINDOWEVENT SDL_WINDOWEVENT_CLOSE 20] false]
       (main_entry false) = Some st /\
     st_sentinel st = true /\
     timestamps <$> st_events st !! Keyboard = Some [3] /\
     timestamps <$> st_events st !! Mouse = Some [0; 10]).
Proof.
  split.
  - destruct (main_loop_registry (replicate 1000 idle_iteration) false)
      as (st & H & Hev & Hs & Hall).
    exists st. split; [exact H|].
    assert (st_sentinel st = false) as Hs' by (rewrite Hs; vm_compute; reflexivity).
    split; [exact Hs'|]. rewrite (Hall Hs') in Hev.
    replace (recorded (replicate 1000 idle_iteration)) with (@nil (TimedEventType * Z))
      in Hev by (vm_compute; reflexivity).
    by injection Hev as <-.
  - set (inputs :=
           [mkIteration [mkEvent SDL_KEYDOWN SDL_WINDOWEVENT_OTHER 3;
                         mkEvent SDL_OTHEREVENT SDL_WINDOWEVENT_OTHER 4] false;
            busy_iteration;
            mkIteration [mkEvent SDL_WINDOWEVENT SDL_WINDOWEVENT_CLOSE 20] false]).
    destruct (main_loop_registry inputs false) as (st & H & Hev & Hs & _).
    exists st. split; [exact H|]. split; [rewrite Hs; reflexivity|].
    set (calls := recorded _) in Hev.
    assert (processEvents calls ∅ ≫= (fun ev => timestamps <$> ev !! Keyboard)
            = Some [3]) as Hk by (vm_compute; reflexivity).
    assert (processEvents calls ∅ ≫= (fun ev => timestamps <$> ev !! Mouse)
            = Some [0; 10]) as Hm by (vm_compute; reflexivity).
    rewrite Hev in Hk, Hm. by split.
Defined.

(** X10. The report is written in every 200th iteration and in no other:
    after the iterations run, [loopy] is their number modulo 200, and
    the output is the banner followed by the reports of the registry as
    it was after 200, 400, ... iterations. *)
Theorem report_cadence (inputs : list Iteration) (s : bool) :
  exists st,
    main_loop inputs (main_entry s) = Some st /\
    let its := iterations_run s inputs in
    st_loopy st = Z.of_nat (length its mod 200) /\
    st_cout st = st_cout (main_entry s)
                 ++ concat (report_at its <$> seq 1 (length its / 200)) /\
    forall k, exists events,
      processEvents (recorded (take (200 * k) its)) ∅ = Some events /\
      report_at its k = report events.
Proof.
  destruct (iterations_closed_form (iterations_run s inputs) s)
    as (st & Hrun & _ & Hloopy & _ & Hout).
  exists st. split; [by rewrite main_loop_iterations|].
  split; [done|]. split; [done|]. intros k.
  destruct (processEvents_ok (recorded (take (200 * k) (iterations_run s inputs)))
              ∅ registry_ok_empty) as (events & Hev & _).
  exists events. split; [done|]. unfold report_at. by rewrite Hev.
Qed.

(** An instance of [report_cadence]: two mouse motions 10 ms apart in
    the first iteration. After 199 iterations nothing but the banner is
    written; the 200th writes the line of [Mouse], Max 100 and Avg 50,
    and resets [loopy]. *)
Lemma report_cadence_example :
  exists st199 st200,
    main_loop (busy_iteration :: replicate 198 idle_iteration) (main_entry false)
      = Some st199 /\
    st_cout st199 = st_cout (main_entry false) /\
    st_loopy st199 = 199 /\
    main_loop (busy_iteration :: replicate 199 idle_iteration) (main_entry false)
      = Some st200 /\
    st_cout st200 = st_cout (main_entry false)
                    ++ line Mouse (Double.of_Z 100) (Double.of_Z 50) /\
    st_loopy st200 = 0.
Proof.
  destruct (report_cadence (busy_iteration :: replicate 198 idle_iteration) false)
    as (st199 & H199 & Hl199 & Hc199 & _).
  destruct (report_cadence (busy_iteration :: replicate 199 idle_iteration) false)
    as (st200 & H200 & Hl200 & Hc200 & _).
  exists st199, st200.
  split; [exact H199|]. split; [rewrite Hc199; vm_compute; reflexivity|].
  split; [rewrite Hl199; vm_compute; reflexivity|].
  split; [exact H200|]. split; [rewrite Hc200; vm_compute; reflexivity|].
  rewrite Hl200. vm_compute. reflexivity.
Defined.

(** X11. The loop is left at the end of the first iteration during which
    the window is closed or SIGINT arrives: that iteration is run to its
    end, so the events polled in it after the close event are recorded,
    and no later iteration is run. *)
Theorem main_loop_stops (pre post : list Iteration) (i : Iteration) :
  Forall (fun j => stops j = false) pre ->
  stops i = true ->
  exists st,
    main_loop (pre ++ i :: post) (main_entry false) = Some st /\
    main_loop (pre ++ [i]) (main_entry false) = Some st /\
    st_sentinel st = true /\
    processEvents (recorded (pre ++ [i])) ∅ = Some (st_events st).
Proof.
  intros Hpre Hi.
  destruct (iterations_closed_form (pre ++ [i]) false)
    as (st & Hrun & Hev & _ & Hsen & _).
  exists st. rewrite !main_loop_iterations. cbn [main_entry st_sentinel].
  rewrite iterations_run_stop by done.
  rewrite <- (app_nil_r (pre ++ [i])) at 2. rewrite <- app_assoc. cbn [app].
  rewrite iterations_run_stop by done.
  split; [done|]. split; [done|]. split; [|done].
  rewrite Hsen, existsb_app. cbn. by rewrite Hi, orb_true_r.
Qed.

(** An instance of [main_loop_stops]: a key event in the first
    iteration; the close event followed by a mouse motion in the second;
    a key event in the third. The mouse motion is recorded, the last key
    event is not. *)
Lemma main_loop_stops_example :
  exists st,
    main_loop
      [mkIteration [mkEvent SDL_KEYDOWN SDL_WINDOWEVENT_OTHER 3] false;
       mkIteration [mkEvent SDL_WINDOWEVENT SDL_WINDOWEVENT_CLOSE 5;
                    mkEvent SDL_MOUSEMOTION SDL_WINDOWEVENT_OTHER 7] false;
       mkIteration [mkEvent SDL_KEYUP SDL_WINDOWEVENT_OTHER 9] false]
      (main_entry false) = Some st /\
    st_sentinel st = true /\
    timestamps <$> st_events st !! Keyboard = Some [3] /\
    timestamps <$> st_events st !! Mouse = Some [7].
Proof.
  destruct (main_loop_stops
              [mkIteration [mkEvent SDL_KEYDOWN SDL_WINDOWEVENT_OTHER 3] false]
              [mkIteration [mkEvent SDL_KEYUP SDL_WINDOWEVENT_OTHER 9] false]
              (mkIteration [mkEvent SDL_WINDOWEVENT SDL_WINDOWEVENT_CLOSE 5;
                            mkEvent SDL_MOUSEMOTION SDL_WINDOWEVENT_OTHER 7] false))
    as (st & H & _ & Hs & Hev).
  - constructor; [reflexivity | constructor].
  - reflexivity.
  - exists st. split; [exact H|]. split; [exact Hs|].
    set (calls := recorded _) in Hev.
    assert (processEvents calls ∅ ≫= (fun ev => timestamps <$> ev !! Keyboard)
            = Some [3]) as Hk by (vm_compute; reflexivity).
    assert (processEvents calls ∅ ≫= (fun ev => timestamps <$> ev !! Mouse)
            = Some [7]) as Hm by (vm_compute; reflexivity).
    rewrite Hev in Hk, Hm. by split.
Defined.

(** X12. Two events polled one after the other that lead to the same
    call of [processEvent] (the same device class and timestamp,
    whatever their event types: a key press and its release, a mouse
    motion and a wheel turn) are recorded once: the second changes
    nothing. *)
Theorem same_class_same_timestamp_once calls (st : MainState) e1 e2 c t :
  processEvents calls ∅ = Some (st_events st) ->
  classify e1 = Some (c, t) ->
  classify e2 = Some (c, t) ->
  exists st',
    poll_events [e1] st = Some st' /\
    poll_events [e1; e2] st = Some st' /\
    handle_event e2 st' = Some st'.
Proof.
  intros Hr H1 H2.
  pose proof (reachable_ok _ (ex_intro _ calls Hr)) as Hok.
  destruct (processEvent_ok c t (st_events st) Hok) as (ev1 & Hev1 & _).
  destruct (processEvent_own _ _ _ _ Hev1) as (v' & Hv' & Hl).
  assert (processEvent c t ev1 = Some ev1) as Hdup.
  { eapply processEvent_duplicate; [done|].
    eapply record_state_last; [|done]. by apply lookup_default_window. }
  assert (closes e1 = false /\ closes e2 = false) as [Hc1 Hc2].
  { unfold classify, closes in *. by destruct (ev_type e1), (ev_type e2). }
  exists {| st_events := ev1; st_loopy := st_loopy st;
            st_sentinel := st_sentinel st; st_cout := st_cout st |}.
  rewrite !poll_events_spec, handle_event_spec.
  cbn [omap list_omap existsb]. rewrite H1, H2, Hc1, Hc2.
  cbn [processEvents option_list st_events st_loopy st_sentinel st_cout].
  rewrite Hev1. cbn [mbind option_bind]. rewrite Hdup.
  cbn [mbind option_bind]. rewrite !orb_false_r.
  split; [done|]. split; [done|].
  change (processEvents (option_list (Some (c, t))) ev1)
    with (events' ← processEvent c t ev1; Some events').
  by rewrite Hdup.
Qed.

(** An instance of [same_class_same_timestamp_once]: a key press and its
    release, both stamped 42 ms, leave one sample. *)
Lemma same_class_same_timestamp_once_example :
  exists st',
    poll_events [mkEvent SDL_KEYDOWN SDL_WINDOWEVENT_OTHER 42;
                 mkEvent SDL_KEYUP SDL_WINDOWEVENT_OTHER 42] (main_entry false)
      = Some st' /\
    timestamps <$> st_events st' !! Keyboard = Some [42].
Proof.
  destruct (same_class_same_timestamp_once [] (main_entry false)
              (mkEvent SDL_KEYDOWN SDL_WINDOWEVENT_OTHER 42)
              (mkEvent SDL_KEYUP SDL_WINDOWEVENT_OTHER 42) Keyboard 42
              eq_refl eq_refl eq_refl) as (st' & H1 & H2 & _).
  exists st'. split; [exact H2|].
  assert (poll_events [mkEvent SDL_KEYDOWN SDL_WINDOWEVENT_OTHER 42] (main_entry false)
            ≫= (fun st => timestamps <$> st_events st !! Keyboard)
          = Some [42]) as Hk by (vm_compute; reflexivity).
  by rewrite H1 in Hk.
Defined.
